(** * A2C agent of tonic (tonic/torch/agents/a2c.py)

    A shallow embedding of the advantage actor-critic agent: the agent
    object, its [step] / [test_step] / [update] / [_update] methods and the
    collaborators it calls (model, replay, updaters, normalizers, logger).

    Conventions.
    - Numbers are rationals ([Q]); a numpy array or torch tensor is a shape
      together with its row-major buffer ([ndarray]).  Conversions between
      numpy and torch ([torch.as_tensor], [.numpy()]) and [.copy()] are the
      identity on values; [.numpy()] on a tensor that requires grad raises,
      which can only happen to a tensor computed outside [torch.no_grad()]
      (the sample of [_test_step]).
    - The methods are written in a state-and-exception monad over the
      [World]: the agent object, torch's global random generator, the logger
      and the list of calls made to collaborators so far.  A raised exception
      keeps the world as it was at the raise, as in Python.
    - The modules [tonic.replays], [tonic.torch.models], [normalizers] and
      [updaters] are interfaces ([Types], [Tonic]); the agent is written
      against them. *)

From Stdlib Require Import String.
From Stdlib Require Import List QArith Bool Arith NArith Lia.
Import ListNotations.
Local Open Scope string_scope.
Local Open Scope list_scope.

(** ** Arrays *)

Record ndarray : Type := mk_ndarray { shape : list nat; data : list Q }.

Definition Qsum (l : list Q) : Q := fold_right Qplus 0%Q l.

(** [chunks n k l]: the first [n] consecutive rows of width [k] of a buffer. *)
Fixpoint chunks (n k : nat) (l : list Q) : list (list Q) :=
  match n with
  | O => []
  | S n' => firstn k l :: chunks n' k (skipn k l)
  end.

Definition numel (dims : list nat) : nat := fold_right Nat.mul 1%nat dims.

(** [t.sum(axis=-1)]: the last axis is summed away; a 0-d tensor is its own
    sum. *)
Definition sum_last_axis (t : ndarray) : ndarray :=
  match rev (shape t) with
  | [] => t
  | k :: outer =>
      {| shape := rev outer;
         data := map Qsum (chunks (numel outer) k (data t)) |}
  end.

Definition copy (a : ndarray) : ndarray := a.
Definition numpy (t : ndarray) : ndarray := t.
Definition as_tensor (a : ndarray) : ndarray := a.

(** Keyword arguments and batches: Python dicts in insertion order. *)
Definition kwargs : Type := list (string * ndarray).

Fixpoint lookup (k : string) (d : kwargs) : option ndarray :=
  match d with
  | [] => None
  | (k', v) :: d' => if String.eqb k k' then Some v else lookup k d'
  end.

Definition keys (d : kwargs) : list string := map fst d.

(** ** Policy distributions

    What [self.model.actor(observations)] returns.  [sample] and
    [sample_with_log_prob] draw from torch's random generator;
    [sample_with_log_prob] is an attribute some distributions do not
    have.  [sample_requires_grad] tells whether the tensor [sample()]
    returns requires grad when the forward pass and the sampling ran with
    gradient tracking on, as they do in [_test_step]; under
    [torch.no_grad()], as in [_step], no tensor requires grad. *)

Definition Rng : Type := N.

Record Distribution : Type := {
  sample : Rng -> ndarray * Rng;
  log_prob : ndarray -> ndarray;
  sample_with_log_prob : option (Rng -> (ndarray * ndarray) * Rng);
  sample_requires_grad : bool
}.

(** A torch tensor as [.numpy()] sees it. *)
Record tensor : Type := { values_of : ndarray; requires_grad : bool }.

Definition hasattr_sample_with_log_prob (d : Distribution) : bool :=
  match sample_with_log_prob d with Some _ => true | None => false end.

(** ** Constructor arguments appearing in a2c.py *)

Inductive Encoder : Type := ObservationEncoder.
Inductive Activation : Type := Tanh.
Record Torso : Type := MLP { sizes : list nat; activation : Activation }.
Inductive Head : Type := DetachedScaleGaussianPolicyHead | ValueHead.
Record Net : Type := { encoder : Encoder; torso : Torso; head : Head }.

Record SegmentArgs : Type := {
  size : nat;
  batch_iterations : nat;
  batch_size : option nat;
  discount_factor : Q;
  trace_decay : Q
}.

(** [lambda params: torch.optim.Adam(params, lr=...)] *)
Inductive Optimizer : Type := Adam (lr : Q).

(** ** Calls to collaborators, in program order *)

Inductive event : Type :=
| EModelInitialize
| EReplayInitialize (seed : option N)
| EActorUpdaterInitialize
| ECriticUpdaterInitialize
| EActor (observations : ndarray)
| ESampleWithLogProb
| ESample
| ELogProb (actions : ndarray)
| ECritic (observations : ndarray)
| EReplayStore (transition : kwargs)
| ERecordObservations (values : ndarray)
| ERecordReturns (values : ndarray)
| EReplayReady (answer : bool)
| EReplayGetFull (ks : list string)
| EReplayComputeReturns (values next_values : ndarray)
| EReplayGet (ks : list string)
| EActorUpdater (batch : kwargs)
| ECriticUpdater (batch : kwargs)
| EUpdateObservationNormalizer
| EUpdateReturnNormalizer.

(** ** Interfaces of the imported modules *)

Class Types : Type := {
  Space : Type;
  Params : Type;
  Normalizer : Type;
  Replay : Type;
  ActorUpdater : Type;
  CriticUpdater : Type
}.

(** [models.ActorCritic]: the networks' parameters and the two optional
    normalizers. *)
Record ActorCritic `{Types} : Type := {
  params : Params;
  observation_normalizer : option Normalizer;
  return_normalizer : option Normalizer
}.

Class Tonic `{Types} : Type := {
  (* tonic.torch.models *)
  models_ActorCritic : Net -> Net -> option Normalizer -> ActorCritic;
  model_initialize : Space -> Space -> ActorCritic -> ActorCritic;
  actor : ActorCritic -> ndarray -> Distribution;
  critic : ActorCritic -> ndarray -> ndarray;
  (* tonic.torch.normalizers *)
  normalizers_MeanStd : Normalizer;
  normalizer_record : ndarray -> Normalizer -> Normalizer;
  normalizer_update : Normalizer -> Normalizer;
  (* tonic.replays *)
  replays_Segment : SegmentArgs -> Replay;
  replay_initialize : option N -> Replay -> Replay;
  replay_store : kwargs -> Replay -> option Replay;
  replay_ready : Replay -> bool;
  replay_get_full : list string -> Replay -> kwargs * Replay;
  replay_compute_returns : ndarray -> ndarray -> Replay -> Replay;
  replay_get : list string -> Replay -> list kwargs * Replay;
  (* tonic.torch.updaters: an updater reads the model and steps the
     trainable parameters *)
  updaters_StochasticPolicyGradient : Optimizer -> ActorUpdater;
  updaters_VRegression : Optimizer -> CriticUpdater;
  actor_updater_initialize : ActorCritic -> ActorUpdater -> ActorUpdater;
  critic_updater_initialize : ActorCritic -> CriticUpdater -> CriticUpdater;
  actor_updater_call :
    kwargs -> ActorUpdater -> ActorCritic -> kwargs * ActorUpdater * Params;
  critic_updater_call :
    kwargs -> CriticUpdater -> ActorCritic -> kwargs * CriticUpdater * Params;
  (* agents.TorchAgent.initialize: seeds the random generators *)
  TorchAgent_initialize : option N -> Rng -> Rng
}.

(** ** The agent object and the world *)

Record A2C `{Types} : Type := {
  model : ActorCritic;
  replay : Replay;
  actor_updater : ActorUpdater;
  critic_updater : CriticUpdater;
  (* attributes created by [step]; absent until then *)
  last_observations : option ndarray;
  last_actions : option ndarray;
  last_log_probs : option ndarray
}.

Record World `{Types} : Type := {
  self : A2C;
  torch_rng : Rng;
  logger : list (string * ndarray);
  calls : list event
}.

Inductive exn : Type :=
| AttributeError (name : string)
| TypeError (name : string)
| RuntimeError
| ReplayError.

Inductive result (A : Type) : Type :=
| Ok (a : A)
| Raise (e : exn).
Arguments Ok {A} a.
Arguments Raise {A} e.

Section Monad.
Context `{Types}.

Definition M (A : Type) : Type := World -> result A * World.

Definition ret {A} (a : A) : M A := fun w => (Ok a, w).

Definition raise {A} (e : exn) : M A := fun w => (Raise e, w).

Definition bind {A B} (c : M A) (k : A -> M B) : M B :=
  fun w =>
    match c w with
    | (Ok a, w') => k a w'
    | (Raise e, w') => (Raise e, w')
    end.

Definition gets {A} (f : A2C -> A) : M A := fun w => (Ok (f (self w)), w).

Definition modify_self (f : A2C -> A2C) : M unit :=
  fun w =>
    (Ok tt, {| self := f (self w); torch_rng := torch_rng w;
               logger := logger w; calls := calls w |}).

Definition emit (e : event) : M unit :=
  fun w =>
    (Ok tt, {| self := self w; torch_rng := torch_rng w;
               logger := logger w; calls := calls w ++ [e] |}).

Definition draw {A} (f : Rng -> A * Rng) : M A :=
  fun w =>
    let (a, g) := f (torch_rng w) in
    (Ok a, {| self := self w; torch_rng := g;
              logger := logger w; calls := calls w |}).

Definition logger_store (key : string) (v : ndarray) : M unit :=
  fun w =>
    (Ok tt, {| self := self w; torch_rng := torch_rng w;
               logger := logger w ++ [(key, v)]; calls := calls w |}).

(** Reading an attribute that may not have been created yet. *)
Definition getattr (name : string) (f : A2C -> option ndarray) : M ndarray :=
  fun w =>
    match f (self w) with
    | Some v => (Ok v, w)
    | None => (Raise (AttributeError name), w)
    end.

End Monad.

Notation "x <- c1 ;; c2" := (bind c1 (fun x => c2))
  (at level 61, c1 at next level, right associativity).
Notation "' pat <- c1 ;; c2" :=
  (bind c1 (fun x => match x with pat => c2 end))
  (at level 61, pat pattern, c1 at next level, right associativity).
Notation "c1 ;; c2" := (bind c1 (fun _ => c2))
  (at level 61, right associativity).

Fixpoint for_each `{Types} {A} (xs : list A) (body : A -> M unit) : M unit :=
  match xs with
  | [] => ret tt
  | x :: xs' => body x ;; for_each xs' body
  end.

(** ** a2c.py *)

Section Agent.
Context `{Tonic}.

Definition default_model : ActorCritic :=
  models_ActorCritic
    {| encoder := ObservationEncoder;
       torso := MLP [64; 64]%nat Tanh;
       head := DetachedScaleGaussianPolicyHead |}
    {| encoder := ObservationEncoder;
       torso := MLP [64; 64]%nat Tanh;
       head := ValueHead |}
    (Some normalizers_MeanStd).

Definition default_replay : Replay :=
  replays_Segment
    {| size := 4096; batch_iterations := 80; batch_size := None;
       discount_factor := 0.98; trace_decay := 0.97 |}.

Definition default_actor_updater : ActorUpdater :=
  updaters_StochasticPolicyGradient (Adam 3e-4).

Definition default_critic_updater : CriticUpdater :=
  updaters_VRegression (Adam 1e-3).

(** [x or default()] with [None] the only falsy argument. *)
Definition or_else {A} (x : option A) (default : unit -> A) : A :=
  match x with
  | Some v => v
  | None => default tt
  end.

Definition __init__ (model : option ActorCritic) (replay : option Replay)
    (actor_updater : option ActorUpdater)
    (critic_updater : option CriticUpdater) : A2C :=
  {| model := or_else model (fun _ => default_model);
     replay := or_else replay (fun _ => default_replay);
     actor_updater := or_else actor_updater (fun _ => default_actor_updater);
     critic_updater :=
       or_else critic_updater (fun _ => default_critic_updater);
     last_observations := None;
     last_actions := None;
     last_log_probs := None |}.

(** Attribute assignment on [self] and on [self.model]. *)

Definition set_model (m : ActorCritic) (a : A2C) : A2C :=
  {| model := m; replay := replay a; actor_updater := actor_updater a;
     critic_updater := critic_updater a;
     last_observations := last_observations a;
     last_actions := last_actions a; last_log_probs := last_log_probs a |}.

Definition set_replay (r : Replay) (a : A2C) : A2C :=
  {| model := model a; replay := r; actor_updater := actor_updater a;
     critic_updater := critic_updater a;
     last_observations := last_observations a;
     last_actions := last_actions a; last_log_probs := last_log_probs a |}.

Definition set_actor_updater (u : ActorUpdater) (a : A2C) : A2C :=
  {| model := model a; replay := replay a; actor_updater := u;
     critic_updater := critic_updater a;
     last_observations := last_observations a;
     last_actions := last_actions a; last_log_probs := last_log_probs a |}.

Definition set_critic_updater (u : CriticUpdater) (a : A2C) : A2C :=
  {| model := model a; replay := replay a; actor_updater := actor_updater a;
     critic_updater := u;
     last_observations := last_observations a;
     last_actions := last_actions a; last_log_probs := last_log_probs a |}.

Definition set_last_observations (v : ndarray) (a : A2C) : A2C :=
  {| model := model a; replay := replay a; actor_updater := actor_updater a;
     critic_updater := critic_updater a;
     last_observations := Some v;
     last_actions := last_actions a; last_log_probs := last_log_probs a |}.

Definition set_last_actions (v : ndarray) (a : A2C) : A2C :=
  {| model := model a; replay := replay a; actor_updater := actor_updater a;
     critic_updater := critic_updater a;
     last_observations := last_observations a;
     last_actions := Some v; last_log_probs := last_log_probs a |}.

Definition set_last_log_probs (v : ndarray) (a : A2C) : A2C :=
  {| model := model a; replay := replay a; actor_updater := actor_updater a;
     critic_updater := critic_updater a;
     last_observations := last_observations a;
     last_actions := last_actions a; last_log_probs := Some v |}.

Definition set_params (p : Params) (m : ActorCritic) : ActorCritic :=
  {| params := p; observation_normalizer := observation_normalizer m;
     return_normalizer := return_normalizer m |}.

Definition set_observation_normalizer (n : Normalizer) (m : ActorCritic)
  : ActorCritic :=
  {| params := params m; observation_normalizer := Some n;
     return_normalizer := return_normalizer m |}.

Definition set_return_normalizer (n : Normalizer) (m : ActorCritic)
  : ActorCritic :=
  {| params := params m; observation_normalizer := observation_normalizer m;
     return_normalizer := Some n |}.

(** Calls to collaborators: each one is noted in [calls] and its effect on
    the collaborator's state written back. *)

Definition call_actor (observations : ndarray) : M Distribution :=
  m <- gets model ;;
  emit (EActor observations) ;;
  ret (actor m observations).

Definition call_critic (observations : ndarray) : M ndarray :=
  m <- gets model ;;
  emit (ECritic observations) ;;
  ret (critic m observations).

Definition call_replay_store (transition : kwargs) : M unit :=
  r <- gets replay ;;
  emit (EReplayStore transition) ;;
  match replay_store transition r with
  | Some r' => modify_self (set_replay r')
  | None => raise ReplayError
  end.

Definition call_replay_ready : M bool :=
  r <- gets replay ;;
  emit (EReplayReady (replay_ready r)) ;;
  ret (replay_ready r).

Definition call_replay_get_full (ks : list string) : M kwargs :=
  r <- gets replay ;;
  emit (EReplayGetFull ks) ;;
  let (batch, r') := replay_get_full ks r in
  modify_self (set_replay r') ;;
  ret batch.

Definition call_replay_compute_returns (values next_values : ndarray)
  : M unit :=
  r <- gets replay ;;
  emit (EReplayComputeReturns values next_values) ;;
  modify_self (set_replay (replay_compute_returns values next_values r)).

(** The generator [self.replay.get(...)] as the list of batches it yields;
    nothing else touches the replay while the [for] loop consumes it. *)
Definition call_replay_get (ks : list string) : M (list kwargs) :=
  r <- gets replay ;;
  emit (EReplayGet ks) ;;
  let (batches, r') := replay_get ks r in
  modify_self (set_replay r') ;;
  ret batches.

Definition call_actor_updater (batch : kwargs) : M kwargs :=
  u <- gets actor_updater ;;
  m <- gets model ;;
  emit (EActorUpdater batch) ;;
  let '(infos, u', p') := actor_updater_call batch u m in
  modify_self (set_actor_updater u') ;;
  modify_self (set_model (set_params p' m)) ;;
  ret infos.

Definition call_critic_updater (batch : kwargs) : M kwargs :=
  u <- gets critic_updater ;;
  m <- gets model ;;
  emit (ECriticUpdater batch) ;;
  let '(infos, u', p') := critic_updater_call batch u m in
  modify_self (set_critic_updater u') ;;
  modify_self (set_model (set_params p' m)) ;;
  ret infos.

Definition record_observations (n : Normalizer) (values : ndarray) : M unit :=
  emit (ERecordObservations values) ;;
  m <- gets model ;;
  modify_self
    (set_model (set_observation_normalizer (normalizer_record values n) m)).

Definition record_returns (n : Normalizer) (values : ndarray) : M unit :=
  emit (ERecordReturns values) ;;
  m <- gets model ;;
  modify_self
    (set_model (set_return_normalizer (normalizer_record values n) m)).

Definition update_observation_normalizer (n : Normalizer) : M unit :=
  emit EUpdateObservationNormalizer ;;
  m <- gets model ;;
  modify_self (set_model (set_observation_normalizer (normalizer_update n) m)).

Definition update_return_normalizer (n : Normalizer) : M unit :=
  emit EUpdateReturnNormalizer ;;
  m <- gets model ;;
  modify_self (set_model (set_return_normalizer (normalizer_update n) m)).

Definition super_initialize (seed : option N) : M unit :=
  fun w =>
    (Ok tt, {| self := self w;
               torch_rng := TorchAgent_initialize seed (torch_rng w);
               logger := logger w; calls := calls w |}).

(** *** A2C.initialize *)
Definition initialize (observation_space action_space : Space)
    (seed : option N) : M unit :=
  super_initialize seed ;;
  m <- gets model ;;
  emit EModelInitialize ;;
  modify_self
    (set_model (model_initialize observation_space action_space m)) ;;
  r <- gets replay ;;
  emit (EReplayInitialize seed) ;;
  modify_self (set_replay (replay_initialize seed r)) ;;
  au <- gets actor_updater ;;
  m <- gets model ;;
  emit EActorUpdaterInitialize ;;
  modify_self (set_actor_updater (actor_updater_initialize m au)) ;;
  cu <- gets critic_updater ;;
  m <- gets model ;;
  emit ECriticUpdaterInitialize ;;
  modify_self (set_critic_updater (critic_updater_initialize m cu)).

(** *** A2C._step *)
Definition _step (observations : ndarray) : M (ndarray * ndarray) :=
  let observations := as_tensor observations in
  distributions <- call_actor observations ;;
  ' (actions, log_probs) <-
    match sample_with_log_prob distributions with
    | Some combined =>
        (* hasattr(distributions, 'sample_with_log_prob') *)
        emit ESampleWithLogProb ;;
        draw combined
    | None =>
        emit ESample ;;
        actions <- draw (sample distributions) ;;
        emit (ELogProb actions) ;;
        ret (actions, log_prob distributions actions)
    end ;;
  let log_probs := sum_last_axis log_probs in
  ret (actions, log_probs).

(** *** A2C.step *)
Definition step (observations : ndarray) : M ndarray :=
  (* Sample actions and get their log-probabilities for training. *)
  ' (actions, log_probs) <- _step observations ;;
  let actions := numpy actions in
  let log_probs := numpy log_probs in
  (* Keep some values for the next update. *)
  modify_self (set_last_observations (copy observations)) ;;
  modify_self (set_last_actions (copy actions)) ;;
  modify_self (set_last_log_probs (copy log_probs)) ;;
  ret actions.

(** [t.numpy()] on a tensor that may require grad: torch refuses to
    convert one that does. *)
Definition tensor_numpy (t : tensor) : M ndarray :=
  if requires_grad t then raise RuntimeError else ret (values_of t).

(** *** A2C._test_step

    No [torch.no_grad()] here: the sample keeps whatever gradient
    requirement the distribution gives it. *)
Definition _test_step (observations : ndarray) : M tensor :=
  let observations := as_tensor observations in
  distributions <- call_actor observations ;;
  emit ESample ;;
  actions <- draw (sample distributions) ;;
  ret {| values_of := actions;
         requires_grad := sample_requires_grad distributions |}.

(** *** A2C.test_step *)
Definition test_step (observations : ndarray) : M ndarray :=
  (* Sample actions for testing. *)
  actions <- _test_step observations ;;
  tensor_numpy actions.

(** Unpacking a batch into the keyword arguments of a method with exactly
    the two named parameters. *)
Definition bind_kwargs2 (k1 k2 : string) (batch : kwargs)
  : M (ndarray * ndarray) :=
  match lookup k1 batch, lookup k2 batch with
  | Some v1, Some v2 =>
      if forallb (fun k => String.eqb k k1 || String.eqb k k2) (keys batch)
      then ret (v1, v2)
      else raise (TypeError "unexpected keyword argument")
  | None, _ => raise (TypeError k1)
  | _, None => raise (TypeError k2)
  end.

(** *** A2C._evaluate *)
Definition _evaluate (batch : kwargs) : M (ndarray * ndarray) :=
  ' (observations, next_observations) <-
    bind_kwargs2 "observations" "next_observations" batch ;;
  let observations := as_tensor observations in
  let next_observations := as_tensor next_observations in
  values <- call_critic observations ;;
  next_values <- call_critic next_observations ;;
  ret (values, next_values).

Definition store_infos (prefix : string) (infos : kwargs) : M unit :=
  for_each infos (fun kv => logger_store (prefix ++ fst kv)%string (numpy (snd kv))).

(** *** A2C._update *)
Definition _update : M unit :=
  (* Compute the lambda-returns. *)
  batch <- call_replay_get_full ["observations"; "next_observations"] ;;
  ' (values, next_values) <- _evaluate batch ;;
  let values := numpy values in
  let next_values := numpy next_values in
  call_replay_compute_returns values next_values ;;
  (* Update the actor once. *)
  let ks := ["observations"; "actions"; "advantages"; "log_probs"] in
  batch <- call_replay_get_full ks ;;
  infos <- call_actor_updater batch ;;
  store_infos "actor/" infos ;;
  (* Update the critic multiple times. *)
  batches <- call_replay_get ["observations"; "returns"] ;;
  for_each batches (fun batch =>
    infos <- call_critic_updater batch ;;
    store_infos "critic/" infos) ;;
  (* Update the normalizers. *)
  m <- gets model ;;
  match observation_normalizer m with
  | Some n => update_observation_normalizer n
  | None => ret tt
  end ;;
  m <- gets model ;;
  match return_normalizer m with
  | Some n => update_return_normalizer n
  | None => ret tt
  end.

(** *** A2C.update *)
Definition update (observations rewards resets terminations : ndarray)
  : M unit :=
  (* Store the last transitions in the replay. *)
  last_obs <- getattr "last_observations" last_observations ;;
  last_act <- getattr "last_actions" last_actions ;;
  last_lp <- getattr "last_log_probs" last_log_probs ;;
  call_replay_store
    [("observations", last_obs); ("actions", last_act);
     ("next_observations", observations); ("rewards", rewards);
     ("resets", resets); ("terminations", terminations);
     ("log_probs", last_lp)] ;;
  (* Prepare to update the normalizers. *)
  m <- gets model ;;
  match observation_normalizer m with
  | Some n =>
      last_obs <- getattr "last_observations" last_observations ;;
      record_observations n last_obs
  | None => ret tt
  end ;;
  m <- gets model ;;
  match return_normalizer m with
  | Some n => record_returns n rewards
  | None => ret tt
  end ;;
  (* Update the model if the replay is ready. *)
  ready <- call_replay_ready ;;
  if ready then _update else ret tt.

End Agent.

(** ** The trajectory buffer

    [tonic/replays] is not among the sources; the agent only calls it.  The
    buffer below follows section 4.1 of the specification and its data
    model (one transition per timestep: reward a scalar, reset and
    termination flags, behaviour log-probability a scalar). *)

Module Segment.

(** Modelled from the spec: the Transition of the data model, which the
    missing [replays.Segment] stores one per timestep. *)
Record Transition : Type := {
  observation : ndarray;
  action : ndarray;
  next_observation : ndarray;
  reward : Q;
  reset : bool;
  termination : bool;
  behavior_log_probability : Q
}.

(** Modelled from the spec: the Segment held by the missing
    [replays.Segment]: configuration, write cursor, the stored transitions
    in storage order, the two derived arrays and the shuffling state. *)
Record t : Type := {
  args : SegmentArgs;
  cursor : nat;
  storage : list Transition;
  advantages : list Q;
  returns : list Q;
  shuffling : N
}.

(** Modelled from the spec: a reset or termination flag as the number the
    formulas of the missing [replays.Segment] subtract from 1. *)
Definition b2q (b : bool) : Q := if b then 1%Q else 0%Q.

(** Modelled from the spec: the constructor of the missing
    [replays.Segment], an empty segment with the given configuration. *)
Definition new (a : SegmentArgs) : t :=
  {| args := a; cursor := 0; storage := []; advantages := [];
     returns := []; shuffling := 0%N |}.

(** Modelled from the spec: [initialize(random_seed)] of the missing
    [replays.Segment]: resets the shuffling state, allocates the storage and
    sets the write cursor to 0. *)
Definition initialize (seed : option N) (s : t) : t :=
  {| args := args s; cursor := 0; storage := []; advantages := [];
     returns := [];
     shuffling := match seed with Some n => n | None => 0%N end |}.

(** Modelled from the spec: [ready()] of the missing [replays.Segment]: true
    iff cursor == N. *)
Definition ready (s : t) : bool := Nat.eqb (cursor s) (size (args s)).

(** Modelled from the spec: [store] of the missing [replays.Segment]:
    writes one Transition at the cursor and advances it by 1; fails when the
    buffer is already full and unreset. *)
Definition store (tr : Transition) (s : t) : option t :=
  if ready s then None
  else Some {| args := args s; cursor := S (cursor s);
               storage := firstn (cursor s) (storage s) ++ [tr];
               advantages := advantages s; returns := returns s;
               shuffling := shuffling s |}.

(** Modelled from the spec: the TD residual of [compute_returns],
    δ_t = reward_t + γ·(1−termination_t)·next_value_t − value_t. *)
Definition delta (gamma : Q) (tr : Transition) (value next_value : Q) : Q :=
  reward tr + gamma * (1 - b2q (termination tr)) * next_value - value.

(** Modelled from the spec: the reverse loop of [compute_returns] of the
    missing [replays.Segment].  It walks the timesteps from N−1 down to 0
    carrying the trace A_{t+1} and the reset flag of t+1, and emits
    (advantages[t], returns[t]) for each t. *)
Fixpoint backward (gamma lambda : Q) (later_first : list (Transition * Q * Q))
    (reset_next trace_next : Q) (acc : list (Q * Q)) : list (Q * Q) :=
  match later_first with
  | [] => acc
  | (tr, value, next_value) :: earlier =>
      let trace :=
        delta gamma tr value next_value
        + gamma * lambda * (1 - reset_next) * trace_next in
      backward gamma lambda earlier (b2q (reset tr)) trace
               ((trace, trace + value) :: acc)
  end.

(** Modelled from the spec: [compute_returns(values[N], next_values[N])] of
    the missing [replays.Segment], with γ = discount_factor and
    λ = trace_decay and the boundary seeded as A_N = 0. *)
Definition compute_returns (values next_values : list Q) (s : t) : t :=
  let rows := combine (combine (storage s) values) next_values in
  let out :=
    backward (discount_factor (args s)) (trace_decay (args s))
             (rev rows) 0 0 [] in
  {| args := args s; cursor := cursor s; storage := storage s;
     advantages := map fst out; returns := map snd out;
     shuffling := shuffling s |}.

(** Modelled from the spec: the recurrence of [compute_returns] read
    forward, for comparison with the reverse loop: each entry is computed
    from the entry after it, the last one from the boundary
    ([reset_end], [trace_end]). *)
Fixpoint recurrence (gamma lambda : Q) (rows : list (Transition * Q * Q))
    (reset_end trace_end : Q) : list (Q * Q) :=
  match rows with
  | [] => []
  | (tr, value, next_value) :: later =>
      let out := recurrence gamma lambda later reset_end trace_end in
      let reset_next :=
        match later with
        | (tr', _, _) :: _ => b2q (reset tr')
        | [] => reset_end
        end in
      let trace_next :=
        match out with
        | (a, _) :: _ => a
        | [] => trace_end
        end in
      let trace :=
        delta gamma tr value next_value
        + gamma * lambda * (1 - reset_next) * trace_next in
      (trace, trace + value) :: out
  end.

(** Modelled from the spec: advantages[i] of the missing [replays.Segment];
    outside the segment it reads 0, the seed A_N = 0. *)
Definition advantage_at (s : t) (i : nat) : Q := nth i (advantages s) 0%Q.

(** Modelled from the spec: returns[i] of the missing [replays.Segment]. *)
Definition return_at (s : t) (i : nat) : Q := nth i (returns s) 0%Q.

(** Modelled from the spec: reset_i of the missing [replays.Segment] as a
    number; no transition, no reset. *)
Definition reset_at (s : t) (i : nat) : Q :=
  match nth_error (storage s) i with
  | Some tr => b2q (reset tr)
  | None => 0%Q
  end.

(** Modelled from the spec: a per-timestep scalar field of the missing
    [replays.Segment] as a one-dimensional array. *)
Definition vector (l : list Q) : ndarray :=
  {| shape := [length l]; data := l |}.

(** Modelled from the spec: a per-timestep array field of the missing
    [replays.Segment] stacked along a new first axis. *)
Definition stack (l : list ndarray) : ndarray :=
  {| shape := length l :: match l with [] => [] | a :: _ => shape a end;
     data := concat (map data l) |}.

(** Modelled from the spec: one named field of the missing
    [replays.Segment] over all its entries, in storage order. *)
Definition field (k : string) (s : t) : option ndarray :=
  if String.eqb k "observations" then
    Some (stack (map observation (storage s)))
  else if String.eqb k "actions" then
    Some (stack (map action (storage s)))
  else if String.eqb k "next_observations" then
    Some (stack (map next_observation (storage s)))
  else if String.eqb k "rewards" then
    Some (vector (map reward (storage s)))
  else if String.eqb k "resets" then
    Some (vector (map (fun tr => b2q (reset tr)) (storage s)))
  else if String.eqb k "terminations" then
    Some (vector (map (fun tr => b2q (termination tr)) (storage s)))
  else if String.eqb k "log_probs" then
    Some (vector (map behavior_log_probability (storage s)))
  else if String.eqb k "advantages" then Some (vector (advantages s))
  else if String.eqb k "returns" then Some (vector (returns s))
  else None.

(** Modelled from the spec: the batch of the requested fields of the
    missing [replays.Segment]. *)
Definition fields (ks : list string) (s : t) : kwargs :=
  flat_map (fun k => match field k s with
                     | Some a => [(k, a)]
                     | None => []
                     end) ks.

(** Modelled from the spec: the logical reset of the missing
    [replays.Segment]: the write cursor returns to 0. *)
Definition rewind (s : t) : t :=
  {| args := args s; cursor := 0; storage := storage s;
     advantages := advantages s; returns := returns s;
     shuffling := shuffling s |}.

(** Modelled from the spec: [get_full(field_names...)] of the missing
    [replays.Segment]: the requested fields for all entries as one batch, in
    storage order.  Reading the segment out for learning returns the write
    cursor to 0. *)
Definition get_full (ks : list string) (s : t) : kwargs * t :=
  (fields ks s, rewind s).

(** Modelled from the spec: the entries of the missing [replays.Segment]
    at the given indices. *)
Definition pick {A} (indices : list nat) (l : list A) : list A :=
  flat_map (fun i => match nth_error l i with
                     | Some x => [x]
                     | None => []
                     end) indices.

(** Modelled from the spec: a fresh full permutation of 0..N−1 per
    iteration.  The random generator itself is not specified; a rotation by
    the shuffling state stands for it. *)
Definition shuffle (g : N) (n : nat) : list nat :=
  map (fun i => Nat.modulo (i + N.to_nat g) n) (seq 0 n).

(** Modelled from the spec: the shuffling state of the missing
    [replays.Segment] after one permutation was drawn. *)
Definition next_shuffling (g : N) : N := N.modulo (5 * g + 1) 65536.

(** Modelled from the spec: the [n] batches of [get] of the missing
    [replays.Segment], one per iteration. *)
Fixpoint iterations (n : nat) (ks : list string) (s : t) (g : N)
  : list kwargs * N :=
  match n with
  | O => ([], g)
  | S n' =>
      let count := length (storage s) in
      let indices :=
        firstn (match batch_size (args s) with Some b => b | None => count end)
               (shuffle g count) in
      let view :=
        {| args := args s; cursor := cursor s;
           storage := pick indices (storage s);
           advantages := pick indices (advantages s);
           returns := pick indices (returns s);
           shuffling := shuffling s |} in
      let (rest, g') := iterations n' ks s (next_shuffling g) in
      (fields ks view :: rest, g')
  end.

(** Modelled from the spec: [get(field_names...)] of the missing
    [replays.Segment]: exactly batch_iterations batches, each of batch_size
    entries (all of them when batch_size is unset) drawn from a fresh
    permutation of the indices. *)
Definition get (ks : list string) (s : t) : list kwargs * t :=
  let (batches, g) :=
    iterations (batch_iterations (args s)) ks s (shuffling s) in
  (batches,
   {| args := args s; cursor := 0; storage := storage s;
      advantages := advantages s; returns := returns s; shuffling := g |}).

(** Modelled from the spec: the scalar held by an array passed to the
    missing [replays.Segment]. *)
Definition item (a : ndarray) : Q := hd 0%Q (data a).

(** Modelled from the spec: the flag held by an array passed to the missing
    [replays.Segment]. *)
Definition truthy (a : ndarray) : bool := negb (Qeq_bool (item a) 0).

(** Modelled from the spec: the keyword arguments of [store] of the missing
    [replays.Segment] read as one Transition of the data model. *)
Definition transition_of (kw : kwargs) : option Transition :=
  match lookup "observations" kw, lookup "actions" kw,
        lookup "next_observations" kw, lookup "rewards" kw,
        lookup "resets" kw, lookup "terminations" kw,
        lookup "log_probs" kw with
  | Some o, Some a, Some o', Some r, Some rs, Some tm, Some lp =>
      Some {| observation := o; action := a; next_observation := o';
              reward := item r; reset := truthy rs; termination := truthy tm;
              behavior_log_probability := item lp |}
  | _, _, _, _, _, _, _ => None
  end.

(** Modelled from the spec: [store] of the missing [replays.Segment] as
    the agent calls it, with keyword arguments. *)
Definition store_kwargs (kw : kwargs) (s : t) : option t :=
  match transition_of kw with
  | Some tr => store tr s
  | None => None
  end.

End Segment.

(** ** Stand-ins for model, normalizers and updaters

    A small deterministic instance of the interfaces, used to run the agent
    on concrete inputs.  The actor returns the observations as the action;
    its distribution has the combined [sample_with_log_prob] only for
    one-dimensional observations, and its sample is differentiable only
    for zero-dimensional observations. *)

Module Standin.

Record Recorder : Type := { recorded : list ndarray; flushed : nat }.

#[export] Instance types : Types := {|
  Space := unit;
  Params := nat;
  Normalizer := Recorder;
  Replay := Segment.t;
  ActorUpdater := Optimizer * nat;
  CriticUpdater := Optimizer * nat
|}.

Definition log_density (a : ndarray) : ndarray :=
  {| shape := shape a ++ [2%nat];
     data := flat_map (fun _ => [- (1 # 2); - (1 # 4)]%Q) (data a) |}.

Definition policy (m : ActorCritic) (observations : ndarray) : Distribution :=
  {| sample := fun g => (observations, N.succ g);
     log_prob := log_density;
     sample_with_log_prob :=
       match shape observations with
       | [_] => Some (fun g => ((observations, log_density observations),
                                N.succ g))
       | _ => None
       end;
     sample_requires_grad :=
       match shape observations with
       | [] => true
       | _ => false
       end |}.

Definition value (m : ActorCritic) (observations : ndarray) : ndarray :=
  Segment.vector (repeat (1 # 2)%Q (hd 0%nat (shape observations))).

#[export] Instance tonic : Tonic := {|
  models_ActorCritic := fun _ _ n =>
    {| params := 0%nat; observation_normalizer := n;
       return_normalizer := None |};
  model_initialize := fun _ _ m => m;
  actor := policy;
  critic := value;
  normalizers_MeanStd := {| recorded := []; flushed := 0 |};
  normalizer_record := fun v n =>
    {| recorded := recorded n ++ [v]; flushed := flushed n |};
  normalizer_update := fun n =>
    {| recorded := []; flushed := flushed n + length (recorded n) |};
  replays_Segment := Segment.new;
  replay_initialize := Segment.initialize;
  replay_store := Segment.store_kwargs;
  replay_ready := Segment.ready;
  replay_get_full := Segment.get_full;
  replay_compute_returns := fun values next_values =>
    Segment.compute_returns (data values) (data next_values);
  replay_get := Segment.get;
  updaters_StochasticPolicyGradient := fun o => (o, 0%nat);
  updaters_VRegression := fun o => (o, 0%nat);
  actor_updater_initialize := fun _ u => u;
  critic_updater_initialize := fun _ u => u;
  actor_updater_call := fun batch u m =>
    ([("loss", Segment.vector [0%Q])], (fst u, S (snd u)), S (params m));
  critic_updater_call := fun batch u m =>
    ([("loss", Segment.vector [0%Q])], (fst u, S (snd u)), S (params m));
  TorchAgent_initialize := fun seed g =>
    match seed with Some n => n | None => g end
|}.

End Standin.

(** ** Statements about runs of the agent *)

(** The calls made between two worlds. *)
Definition new_calls `{Types} (before after : World) : list event :=
  skipn (length (calls before)) (calls after).

Definition is_store (e : event) : bool :=
  match e with EReplayStore _ => true | _ => false end.

Definition is_combined_sampling (e : event) : bool :=
  match e with ESampleWithLogProb => true | _ => false end.

(** The log-probability tensor the distribution hands back for the action
    it samples, before any reduction. *)
Definition raw_log_probs (d : Distribution) (g : Rng) : ndarray :=
  match sample_with_log_prob d with
  | Some combined => snd (fst (combined g))
  | None => log_prob d (fst (sample d g))
  end.

Definition sampled_actions (d : Distribution) (g : Rng) : ndarray :=
  match sample_with_log_prob d with
  | Some combined => fst (fst (combined g))
  | None => fst (sample d g)
  end.

Definition rng_after_sampling (d : Distribution) (g : Rng) : Rng :=
  match sample_with_log_prob d with
  | Some combined => snd (combined g)
  | None => snd (sample d g)
  end.

(** The distribution methods [_step] calls. *)
Definition sampling_calls (d : Distribution) (g : Rng) : list event :=
  match sample_with_log_prob d with
  | Some _ => [ESampleWithLogProb]
  | None => [ESample; ELogProb (fst (sample d g))]
  end.

(** The keyword arguments [update] passes to [replay.store]. *)
Definition transition (last_obs last_act observations rewards resets
    terminations last_lp : ndarray) : kwargs :=
  [("observations", last_obs); ("actions", last_act);
   ("next_observations", observations); ("rewards", rewards);
   ("resets", resets); ("terminations", terminations);
   ("log_probs", last_lp)].

(** A batch that unpacks into the two keyword parameters [k1], [k2]. *)
Definition binds2 (k1 k2 : string) (batch : kwargs) (v1 v2 : ndarray) : Prop :=
  lookup k1 batch = Some v1
  /\ lookup k2 batch = Some v2
  /\ forallb (fun k => String.eqb k k1 || String.eqb k k2) (keys batch) = true.

Definition present {A} (x : option A) : bool :=
  match x with Some _ => true | None => false end.

(** The model after [update] has fed the normalizers' recording buffers. *)
Definition recorded_model `{Tonic} (last_obs rewards : ndarray)
    (m : ActorCritic) : ActorCritic :=
  let m1 :=
    match observation_normalizer m with
    | Some n => set_observation_normalizer (normalizer_record last_obs n) m
    | None => m
    end in
  match return_normalizer m1 with
  | Some n => set_return_normalizer (normalizer_record rewards n) m1
  | None => m1
  end.

Definition record_calls `{Types} (last_obs rewards : ndarray)
    (m : ActorCritic) : list event :=
  (if present (observation_normalizer m)
   then [ERecordObservations last_obs] else [])
  ++ (if present (return_normalizer m) then [ERecordReturns rewards] else []).

Definition flush_calls `{Types} (m : ActorCritic) : list event :=
  (if present (observation_normalizer m)
   then [EUpdateObservationNormalizer] else [])
  ++ (if present (return_normalizer m)
      then [EUpdateReturnNormalizer] else []).

(** The learning pass as the specification words it: critic evaluation over the
    full segment, [compute_returns], one actor-updater call on the full
    segment, one critic-updater call per batch yielded by [get], then the
    normalizers' updates.  [m] is the model and [r] the replay when the pass
    starts; [o] and [no] are the stored observations and next-observations
    of the first full batch. *)
Definition learning_pass_calls `{Tonic} (m : ActorCritic) (r : Replay)
    (o no : ndarray) : list event :=
  let ks1 := ["observations"; "next_observations"] in
  let ks2 := ["observations"; "actions"; "advantages"; "log_probs"] in
  let ks3 := ["observations"; "returns"] in
  let r1 := snd (replay_get_full ks1 r) in
  let values := critic m o in
  let next_values := critic m no in
  let r2 := replay_compute_returns values next_values r1 in
  let full := fst (replay_get_full ks2 r2) in
  let r3 := snd (replay_get_full ks2 r2) in
  let batches := fst (replay_get ks3 r3) in
  [EReplayGetFull ks1; ECritic o; ECritic no;
   EReplayComputeReturns values next_values;
   EReplayGetFull ks2; EActorUpdater full; EReplayGet ks3]
  ++ map ECriticUpdater batches
  ++ flush_calls m.

Definition is_learning_call (e : event) : bool :=
  match e with
  | ECritic _ | EReplayGetFull _ | EReplayComputeReturns _ _ | EReplayGet _
  | EActorUpdater _ | ECriticUpdater _
  | EUpdateObservationNormalizer | EUpdateReturnNormalizer => true
  | _ => false
  end.

Definition is_normalizer_call (e : event) : bool :=
  match e with
  | ERecordObservations _ | ERecordReturns _
  | EUpdateObservationNormalizer | EUpdateReturnNormalizer => true
  | _ => false
  end.

(** Whether a [step] call on this world takes the combined
    sample-with-log-probability operation. *)
Definition step_uses_combined `{Tonic} (w : World) (observations : ndarray)
  : bool :=
  existsb is_combined_sampling (new_calls w (snd (step observations w))).

(** The choice is fixed when the agent is constructed: it depends on the
    agent object alone, not on the call. *)
Definition resolved_at_construction `{Tonic} (a : A2C) : Prop :=
  exists combined : bool,
    forall (w : World) (observations : ndarray),
      self w = a -> step_uses_combined w observations = combined.

(** Drivers that never call [step]. *)
Inductive call_without_step `{Types} : Type :=
| CallInitialize (observation_space action_space : Space) (seed : option N)
| CallTestStep (observations : ndarray)
| CallUpdate (observations rewards resets terminations : ndarray).

Definition perform `{Tonic} (c : call_without_step) : M unit :=
  match c with
  | CallInitialize os acs seed => initialize os acs seed
  | CallTestStep o => test_step o ;; ret tt
  | CallUpdate o r rs tm => update o r rs tm
  end.

(** The driver goes on after a failed call. *)
Fixpoint run `{Tonic} (cs : list call_without_step) (w : World) : World :=
  match cs with
  | [] => w
  | c :: cs' => run cs' (snd (perform c w))
  end.

Definition fresh `{Tonic} (a : A2C) (g : Rng) : World :=
  {| self := a; torch_rng := g; logger := []; calls := [] |}.

(** What an optimizer step leaves alone: the normalizers and the cached
    last-step values. *)
Definition keeps `{Types} (w w' : World) : Prop :=
  observation_normalizer (model (self w'))
  = observation_normalizer (model (self w))
  /\ return_normalizer (model (self w')) = return_normalizer (model (self w))
  /\ last_observations (self w') = last_observations (self w)
  /\ last_actions (self w') = last_actions (self w)
  /\ last_log_probs (self w') = last_log_probs (self w).

(** Every call a computation makes satisfies [P], whatever world it starts
    from and whether or not it raises. *)
Definition emits_only `{Types} (P : event -> bool) {A} (c : M A) : Prop :=
  forall w : World,
    exists l, calls (snd (c w)) = calls w ++ l /\ forallb P l = true.

Definition not_store (e : event) : bool := negb (is_store e).

(** ** A concrete run on the stand-ins

    A segment of one transition, so that the first [update] fills it and
    the learning pass runs at once. *)

Module Scenario.
Import Standin.

Definition short_segment : SegmentArgs :=
  {| size := 1; batch_iterations := 2; batch_size := None;
     discount_factor := 1 # 2; trace_decay := 1 # 2 |}.

Definition long_segment : SegmentArgs :=
  {| size := 3; batch_iterations := 2; batch_size := None;
     discount_factor := 1 # 2; trace_decay := 1 # 2 |}.

Definition agent (a : SegmentArgs) : A2C :=
  __init__ None (Some (Segment.new a)) None None.

Definition flat : ndarray := {| shape := [1%nat]; data := [1%Q] |}.
Definition batched : ndarray := {| shape := [1%nat; 1%nat]; data := [2%Q] |}.
Definition scalar (q : Q) : ndarray := {| shape := [1%nat]; data := [q] |}.

(** The world after one [step] on the flat observations. *)
Definition stepped (a : SegmentArgs) : World :=
  snd (step flat (fresh (agent a) 0%N)).

(** A full segment of three transitions: the second one terminates its
    episode and the third one starts after a reset. *)
Definition timestep (r : Q) (reset termination : bool) : Segment.Transition :=
  {| Segment.observation := flat; Segment.action := flat;
     Segment.next_observation := flat; Segment.reward := r;
     Segment.reset := reset; Segment.termination := termination;
     Segment.behavior_log_probability := 0 |}.

Definition filled : Segment.t :=
  {| Segment.args := long_segment; Segment.cursor := 3;
     Segment.storage :=
       [timestep 1 false false; timestep 0 false true; timestep 2 true false];
     Segment.advantages := []; Segment.returns := [];
     Segment.shuffling := 0%N |}.

Definition values : list Q := [1 # 2; 1 # 4; 1]%Q.
Definition next_values : list Q := [1 # 4; 3; 1 # 2]%Q.

End Scenario.

(** ** Further statements: drivers, frames and the learning pass *)

(** The calls [step] and [test_step] make. *)
Definition is_acting_call (e : event) : bool :=
  match e with
  | EActor _ | ESample | ESampleWithLogProb | ELogProb _ => true
  | _ => false
  end.

Definition is_actor_call (e : event) : bool :=
  match e with EActor _ => true | _ => false end.

(** Drivers that only act. *)
Inductive acting_call : Type :=
| ActStep (observations : ndarray)
| ActTestStep (observations : ndarray).

Definition act `{Tonic} (c : acting_call) : M ndarray :=
  match c with
  | ActStep o => step o
  | ActTestStep o => test_step o
  end.

Fixpoint run_acting `{Tonic} (cs : list acting_call) (w : World) : World :=
  match cs with
  | [] => w
  | c :: cs' => run_acting cs' (snd (act c w))
  end.







(** The cached last-step attributes. *)
Definition cache `{Types} (a : A2C)
  : option ndarray * option ndarray * option ndarray :=
  (last_observations a, last_actions a, last_log_probs a).

(** A computation leaves a part of the agent object as it was, whatever
    world it starts from and whether or not it raises. *)
Definition preserves `{Types} {X A} (f : A2C -> X) (c : M A) : Prop :=
  forall w : World, f (self (snd (c w))) = f (self w).

(** What [logger.store(prefix + k, v.numpy())] writes for each item of a
    diagnostics mapping. *)
Definition prefixed (prefix : string) (infos : kwargs)
  : list (string * ndarray) :=
  map (fun kv => ((prefix ++ fst kv)%string, numpy (snd kv))) infos.

(** The critic updater run over the batches in order, each call seeing the
    updater and the parameters left by the one before it. *)
Fixpoint critic_epochs `{Tonic} (batches : list kwargs) (u : CriticUpdater)
    (m : ActorCritic) : list kwargs * CriticUpdater * ActorCritic :=
  match batches with
  | [] => ([], u, m)
  | batch :: batches' =>
      let out := critic_updater_call batch u m in
      let rest :=
        critic_epochs batches' (snd (fst out)) (set_params (snd out) m) in
      (fst (fst out) :: fst (fst rest), snd (fst rest), snd rest)
  end.

(** What a learning pass leaves behind, from the model, replay and updaters
    it starts with; [o] and [no] are the stored observations and
    next-observations of the first full batch. *)
Record outcome `{Types} : Type := {
  out_actor_infos : kwargs;
  out_critic_infos : list kwargs;
  out_actor_updater : ActorUpdater;
  out_critic_updater : CriticUpdater;
  out_params : Params;
  out_replay : Replay
}.

Definition learning_pass_outcome `{Tonic} (a : A2C) (o no : ndarray)
  : outcome :=
  let ks1 := ["observations"; "next_observations"] in
  let ks2 := ["observations"; "actions"; "advantages"; "log_probs"] in
  let ks3 := ["observations"; "returns"] in
  let m := model a in
  let r1 := snd (replay_get_full ks1 (replay a)) in
  let r2 := replay_compute_returns (critic m o) (critic m no) r1 in
  let full := fst (replay_get_full ks2 r2) in
  let r3 := snd (replay_get_full ks2 r2) in
  let stepped := actor_updater_call full (actor_updater a) m in
  let batches := fst (replay_get ks3 r3) in
  let epochs :=
    critic_epochs batches (critic_updater a) (set_params (snd stepped) m) in
  {| out_actor_infos := fst (fst stepped);
     out_critic_infos := fst (fst epochs);
     out_actor_updater := snd (fst stepped);
     out_critic_updater := snd (fst epochs);
     out_params := params (snd epochs);
     out_replay := snd (replay_get ks3 r3) |}.

(** Where [update] leaves the replay, given the agent it starts from and
    the transition [tr] it passes to [store].  A refused store leaves the
    replay as it was.  An accepted one makes the replay returned by [store]
    the agent's replay: that is the replay left behind when it is not
    ready, and the replay the learning pass starts from when it is (the
    pass then leaves it as its last [get] does; [o] and [no] are the
    observations and next-observations of its first full batch). *)
Definition replay_after_store `{Tonic} (before : A2C) (tr : kwargs)
    (last_obs rewards : ndarray) (after : A2C) : Prop :=
  match replay_store tr (replay before) with
  | None => replay after = replay before
  | Some r1 =>
      if replay_ready r1 then
        forall o no : ndarray,
          binds2 "observations" "next_observations"
            (fst (replay_get_full ["observations"; "next_observations"] r1))
            o no ->
          replay after =
            out_replay
              (learning_pass_outcome
                 (set_model (recorded_model last_obs rewards (model before))
                    (set_replay r1 before)) o no)
      else replay after = r1
  end.

(** ** More concrete runs on the stand-ins *)

Module Cases.
Import Standin.

(** Zero-dimensional observations: the stand-in policy's sample requires
    grad for them. *)
Definition bare : ndarray := {| shape := []; data := [3%Q] |}.

(** An agent handed a replay that is already full. *)
Definition full_agent : A2C :=
  __init__ None (Some Scenario.filled) None None.

(** A replay whose [get_full] answers with an empty batch. *)
#[local] Instance forgetful : Tonic := {|
  models_ActorCritic := @models_ActorCritic _ tonic;
  model_initialize := @model_initialize _ tonic;
  actor := @actor _ tonic;
  critic := @critic _ tonic;
  normalizers_MeanStd := @normalizers_MeanStd _ tonic;
  normalizer_record := @normalizer_record _ tonic;
  normalizer_update := @normalizer_update _ tonic;
  replays_Segment := @replays_Segment _ tonic;
  replay_initialize := @replay_initialize _ tonic;
  replay_store := @replay_store _ tonic;
  replay_ready := @replay_ready _ tonic;
  replay_get_full := fun _ s => ([], Segment.rewind s);
  replay_compute_returns := @replay_compute_returns _ tonic;
  replay_get := @replay_get _ tonic;
  updaters_StochasticPolicyGradient :=
    @updaters_StochasticPolicyGradient _ tonic;
  updaters_VRegression := @updaters_VRegression _ tonic;
  actor_updater_initialize := @actor_updater_initialize _ tonic;
  critic_updater_initialize := @critic_updater_initialize _ tonic;
  actor_updater_call := @actor_updater_call _ tonic;
  critic_updater_call := @critic_updater_call _ tonic;
  TorchAgent_initialize := @TorchAgent_initialize _ tonic
|}.

End Cases.

(** ** Proofs *)

Section Properties.
Context `{Tonic}.

Lemma new_calls_app (w w' : World) (l : list event) :
  calls w' = calls w ++ l -> new_calls w w' = l.
Proof.
  intros E. unfold new_calls. rewrite E.
  rewrite skipn_app, skipn_all, Nat.sub_diag. reflexivity.
Qed.

Lemma test_step_run (w : World) (observations : ndarray) :
  let d := actor (model (self w)) observations in
  test_step observations w =
    (if sample_requires_grad d
     then Raise RuntimeError
     else Ok (fst (sample d (torch_rng w))),
     {| self := self w;
        torch_rng := snd (sample d (torch_rng w));
        logger := logger w;
        calls := calls w ++ [EActor observations; ESample] |}).
Proof.
  unfold test_step, _test_step, tensor_numpy, call_actor, as_tensor.
  unfold bind, gets, emit, draw, ret, raise. cbn.
  destruct (sample (actor (model (self w)) observations) (torch_rng w))
    as [a g]. cbn.
  rewrite <- app_assoc.
  destruct (sample_requires_grad (actor (model (self w)) observations));
    reflexivity.
Qed.

(** C9. Constructed with no arguments, the agent's replay is
    [Segment(size=4096, batch_iterations=80, batch_size=None,
    discount_factor=0.98, trace_decay=0.97)], its actor updater is built on
    Adam with learning rate 3e-4 and its critic updater on Adam with
    learning rate 1e-3. *)
Theorem default_configuration :
  let a := __init__ None None None None in
  replay a =
    replays_Segment
      {| size := 4096; batch_iterations := 80; batch_size := None;
         discount_factor := 98 # 100; trace_decay := 97 # 100 |}
  /\ actor_updater a = updaters_StochasticPolicyGradient (Adam (3 # 10000))
  /\ critic_updater a = updaters_VRegression (Adam (1 # 1000)).
Proof.
  cbn. repeat split.
Qed.

Lemma step_run (w : World) (observations : ndarray) :
  let d := actor (model (self w)) observations in
  let g := torch_rng w in
  step observations w =
    (Ok (sampled_actions d g),
     {| self :=
          set_last_log_probs (sum_last_axis (raw_log_probs d g))
            (set_last_actions (sampled_actions d g)
               (set_last_observations observations (self w)));
        torch_rng := rng_after_sampling d g;
        logger := logger w;
        calls := calls w ++ EActor observations :: sampling_calls d g |}).
Proof.
  intros d g. subst d g.
  unfold step, _step, call_actor, as_tensor, numpy, copy.
  unfold sampled_actions, raw_log_probs, rng_after_sampling, sampling_calls.
  unfold bind, gets, emit, draw, ret, modify_self. cbn.
  destruct (sample_with_log_prob (actor (model (self w)) observations))
    as [combined|]; cbn.
  - destruct (combined (torch_rng w)) as [[a lp] g]. cbn.
    rewrite <- app_assoc. reflexivity.
  - destruct (sample (actor (model (self w)) observations) (torch_rng w))
      as [a g]. cbn.
    rewrite <- !app_assoc. reflexivity.
Qed.

Lemma bind_ok {A B} (c : M A) (k : A -> M B) (w w1 : World) (a : A) :
  c w = (Ok a, w1) -> bind c k w = k a w1.
Proof. intros E. unfold bind. rewrite E. reflexivity. Qed.

Lemma store_infos_run (prefix : string) (infos : kwargs) :
  forall w : World,
    exists l,
      store_infos prefix infos w =
        (Ok tt, {| self := self w; torch_rng := torch_rng w;
                   logger := logger w ++ l; calls := calls w |}).
Proof.
  unfold store_infos.
  induction infos as [|kv infos IH]; intros w; cbn.
  - exists []. rewrite app_nil_r. destruct w; reflexivity.
  - destruct (IH {| self := self w; torch_rng := torch_rng w;
                    logger := logger w ++ [((prefix ++ fst kv)%string,
                                            numpy (snd kv))];
                    calls := calls w |}) as [l E].
    cbn in E. rewrite E. rewrite <- app_assoc. eauto.
Qed.

Lemma call_critic_updater_run (batch : kwargs) (w : World) :
  let out :=
    critic_updater_call batch (critic_updater (self w)) (model (self w)) in
  call_critic_updater batch w =
    (Ok (fst (fst out)),
     {| self :=
          set_model (set_params (snd out) (model (self w)))
            (set_critic_updater (snd (fst out)) (self w));
        torch_rng := torch_rng w; logger := logger w;
        calls := calls w ++ [ECriticUpdater batch] |}).
Proof.
  unfold call_critic_updater, bind, gets, emit, modify_self, ret. cbn.
  destruct (critic_updater_call batch (critic_updater (self w))
              (model (self w))) as [[infos u'] p'].
  reflexivity.
Qed.

Lemma call_actor_updater_run (batch : kwargs) (w : World) :
  let out :=
    actor_updater_call batch (actor_updater (self w)) (model (self w)) in
  call_actor_updater batch w =
    (Ok (fst (fst out)),
     {| self :=
          set_model (set_params (snd out) (model (self w)))
            (set_actor_updater (snd (fst out)) (self w));
        torch_rng := torch_rng w; logger := logger w;
        calls := calls w ++ [EActorUpdater batch] |}).
Proof.
  unfold call_actor_updater, bind, gets, emit, modify_self, ret. cbn.
  destruct (actor_updater_call batch (actor_updater (self w))
              (model (self w))) as [[infos u'] p'].
  reflexivity.
Qed.

Lemma call_replay_get_full_run (ks : list string) (w : World) :
  call_replay_get_full ks w =
    (Ok (fst (replay_get_full ks (replay (self w)))),
     {| self :=
          set_replay (snd (replay_get_full ks (replay (self w)))) (self w);
        torch_rng := torch_rng w; logger := logger w;
        calls := calls w ++ [EReplayGetFull ks] |}).
Proof.
  unfold call_replay_get_full, bind, gets, emit, modify_self, ret. cbn.
  destruct (replay_get_full ks (replay (self w))) as [batch r'].
  reflexivity.
Qed.

Lemma call_replay_get_run (ks : list string) (w : World) :
  call_replay_get ks w =
    (Ok (fst (replay_get ks (replay (self w)))),
     {| self := set_replay (snd (replay_get ks (replay (self w)))) (self w);
        torch_rng := torch_rng w; logger := logger w;
        calls := calls w ++ [EReplayGet ks] |}).
Proof.
  unfold call_replay_get, bind, gets, emit, modify_self, ret. cbn.
  destruct (replay_get ks (replay (self w))) as [batches r'].
  reflexivity.
Qed.

Lemma bind_kwargs2_run (k1 k2 : string) (batch : kwargs) (v1 v2 : ndarray)
    (w : World) :
  binds2 k1 k2 batch v1 v2 ->
  bind_kwargs2 k1 k2 batch w = (Ok (v1, v2), w).
Proof.
  intros (E1 & E2 & E3). unfold bind_kwargs2. rewrite E1, E2, E3.
  reflexivity.
Qed.

Lemma _evaluate_run (batch : kwargs) (o no : ndarray) (w : World) :
  binds2 "observations" "next_observations" batch o no ->
  _evaluate batch w =
    (Ok (critic (model (self w)) o, critic (model (self w)) no),
     {| self := self w; torch_rng := torch_rng w; logger := logger w;
        calls := calls w ++ [ECritic o; ECritic no] |}).
Proof.
  intros B. unfold _evaluate.
  rewrite (bind_ok _ _ _ _ _ (bind_kwargs2_run _ _ _ _ _ w B)).
  unfold call_critic, as_tensor, bind, gets, emit, ret. cbn.
  rewrite <- app_assoc. reflexivity.
Qed.

Lemma keeps_refl (w : World) : keeps w w.
Proof. unfold keeps. auto. Qed.

Lemma keeps_trans (w1 w2 w3 : World) :
  keeps w1 w2 -> keeps w2 w3 -> keeps w1 w3.
Proof. unfold keeps. intuition congruence. Qed.

Lemma critic_loop_run (batches : list kwargs) :
  forall w : World,
    exists w',
      for_each batches
        (fun batch =>
           infos <- call_critic_updater batch ;;
           store_infos "critic/" infos) w = (Ok tt, w')
      /\ calls w' = calls w ++ map ECriticUpdater batches
      /\ keeps w w'.
Proof.
  induction batches as [|b batches IH]; intros w.
  - exists w. cbn. rewrite app_nil_r. auto using keeps_refl.
  - cbn [for_each map].
    unfold bind at 1 2. rewrite call_critic_updater_run. cbv zeta.
    match goal with
    | |- context [store_infos ?p ?i ?w0] =>
        destruct (store_infos_run p i w0) as [l El]; rewrite El
    end.
    match goal with
    | |- context [for_each batches ?body ?w0] =>
        destruct (IH w0) as (w' & Ew & Ec & Ek)
    end.
    exists w'. rewrite Ew. split; [reflexivity|]. split.
    + rewrite Ec. cbn. rewrite <- app_assoc. reflexivity.
    + eapply keeps_trans; [|exact Ek]. unfold keeps. cbn. auto.
Qed.

Lemma flush_run (w : World) :
  exists w',
    (m <- gets model ;;
     match observation_normalizer m with
     | Some n => update_observation_normalizer n
     | None => ret tt
     end ;;
     m <- gets model ;;
     match return_normalizer m with
     | Some n => update_return_normalizer n
     | None => ret tt
     end) w = (Ok tt, w')
    /\ calls w' = calls w ++ flush_calls (model (self w))
    /\ observation_normalizer (model (self w'))
       = option_map normalizer_update (observation_normalizer (model (self w)))
    /\ return_normalizer (model (self w'))
       = option_map normalizer_update (return_normalizer (model (self w)))
    /\ last_observations (self w') = last_observations (self w)
    /\ last_actions (self w') = last_actions (self w)
    /\ last_log_probs (self w') = last_log_probs (self w).
Proof.
  unfold flush_calls, bind, gets, update_observation_normalizer,
    update_return_normalizer, emit, modify_self, ret.
  cbn.
  destruct (observation_normalizer (model (self w))) as [n1|] eqn:E1;
    destruct (return_normalizer (model (self w))) as [n2|] eqn:E2;
    cbn; rewrite ?E2; cbn; eexists; (split; [reflexivity|]); cbn;
    rewrite ?E1, ?E2, <- ?app_assoc, ?app_nil_r; cbn; auto 10.
Qed.

Lemma _update_run (w : World) (o no : ndarray) :
  binds2 "observations" "next_observations"
    (fst (replay_get_full ["observations"; "next_observations"]
            (replay (self w)))) o no ->
  exists w',
    _update w = (Ok tt, w')
    /\ calls w' =
         calls w ++ learning_pass_calls (model (self w)) (replay (self w)) o no
    /\ observation_normalizer (model (self w'))
       = option_map normalizer_update (observation_normalizer (model (self w)))
    /\ return_normalizer (model (self w'))
       = option_map normalizer_update (return_normalizer (model (self w)))
    /\ last_observations (self w') = last_observations (self w)
    /\ last_actions (self w') = last_actions (self w)
    /\ last_log_probs (self w') = last_log_probs (self w).
Proof.
  intros B. unfold _update, learning_pass_calls, numpy. cbv zeta.
  rewrite (bind_ok _ _ _ _ _ (call_replay_get_full_run _ w)).
  erewrite bind_ok by (apply _evaluate_run; exact B). cbn.
  rewrite (bind_ok _ _ _ _ _ (call_replay_get_full_run _ _)). cbn.
  rewrite (bind_ok _ _ _ _ _ (call_actor_updater_run _ _)). cbn.
  match goal with
  | |- context [bind (store_infos ?p ?i) ?k ?w0] =>
      destruct (store_infos_run p i w0) as [l El];
      rewrite (bind_ok _ _ _ _ _ El)
  end. cbn.
  rewrite (bind_ok _ _ _ _ _ (call_replay_get_run _ _)). cbn.
  match goal with
  | |- context [bind (for_each ?bs ?body) ?k ?w0] =>
      destruct (critic_loop_run bs w0) as (w1 & E1 & C1 & K1);
      rewrite (bind_ok _ _ _ _ _ E1)
  end.
  destruct (flush_run w1) as (w' & E' & C' & N1 & N2 & L1 & L2 & L3).
  destruct K1 as (K1 & K2 & K3 & K4 & K5). cbn in K1, K2, K3, K4, K5, C1.
  exists w'. split; [exact E'|].
  rewrite C', C1, N1, N2, L1, L2, L3, K1, K2, K3, K4, K5.
  unfold flush_calls. rewrite K1, K2.
  repeat split.
  rewrite <- !app_assoc. cbn. reflexivity.
Qed.

Lemma update_run (w : World)
    (observations rewards resets terminations : ndarray)
    (last_obs last_act last_lp : ndarray) (r1 : Replay) (o no : ndarray) :
  last_observations (self w) = Some last_obs ->
  last_actions (self w) = Some last_act ->
  last_log_probs (self w) = Some last_lp ->
  replay_store
    (transition last_obs last_act observations rewards resets terminations
       last_lp) (replay (self w)) = Some r1 ->
  (replay_ready r1 = true ->
   binds2 "observations" "next_observations"
     (fst (replay_get_full ["observations"; "next_observations"] r1)) o no) ->
  exists w',
    update observations rewards resets terminations w = (Ok tt, w')
    /\ calls w' =
         calls w
         ++ EReplayStore
              (transition last_obs last_act observations rewards resets
                 terminations last_lp)
            :: record_calls last_obs rewards (model (self w))
            ++ EReplayReady (replay_ready r1)
               :: (if replay_ready r1
                   then learning_pass_calls
                          (recorded_model last_obs rewards (model (self w)))
                          r1 o no
                   else [])
    /\ observation_normalizer (model (self w'))
       = option_map
           (fun n =>
              if replay_ready r1
              then normalizer_update (normalizer_record last_obs n)
              else normalizer_record last_obs n)
           (observation_normalizer (model (self w)))
    /\ return_normalizer (model (self w'))
       = option_map
           (fun n =>
              if replay_ready r1
              then normalizer_update (normalizer_record rewards n)
              else normalizer_record rewards n)
           (return_normalizer (model (self w)))
    /\ last_observations (self w') = Some last_obs
    /\ last_actions (self w') = Some last_act
    /\ last_log_probs (self w') = Some last_lp.
Proof.
  intros L1 L2 L3 S B.
  unfold update, transition in *.
  unfold getattr, call_replay_store, call_replay_ready, record_observations,
    record_returns, record_calls, recorded_model, bind, gets, emit,
    modify_self, ret.
  cbn. rewrite L1, L2, L3. cbn. rewrite S. cbn.
  destruct (observation_normalizer (model (self w))) as [n1|] eqn:E1;
    destruct (return_normalizer (model (self w))) as [n2|] eqn:E2;
    cbn; rewrite ?L1; cbn; rewrite ?E2; cbn;
    (destruct (replay_ready r1) eqn:R;
     [ match goal with
       | |- context [_update ?w0] =>
           destruct (_update_run w0 o no (B eq_refl))
             as (w' & E' & C' & N1 & N2 & K1 & K2 & K3)
       end;
       exists w'; split; [exact E'|];
       cbn in C', N1, N2, K1, K2, K3;
       rewrite C', N1, N2, K1, K2, K3, ?E1, ?E2; cbn;
       rewrite <- ?app_assoc; cbn; auto 10
     | eexists; split; [reflexivity|]; cbn;
       rewrite <- ?app_assoc, ?E1, ?E2; cbn; auto 10 ]).
Qed.

Lemma existsb_record_calls (last_obs rewards : ndarray) (m : ActorCritic) :
  existsb is_learning_call (record_calls last_obs rewards m) = false.
Proof.
  unfold record_calls.
  destruct (present (observation_normalizer m));
    destruct (present (return_normalizer m)); reflexivity.
Qed.

Lemma filter_critic_updater_calls (batches : list kwargs) :
  filter is_normalizer_call (map ECriticUpdater batches) = [].
Proof.
  induction batches as [|b batches IH]; [reflexivity | exact IH].
Qed.

Lemma filter_flush_calls (m : ActorCritic) :
  filter is_normalizer_call (flush_calls m) = flush_calls m.
Proof.
  unfold flush_calls.
  destruct (present (observation_normalizer m));
    destruct (present (return_normalizer m)); reflexivity.
Qed.

Lemma flush_calls_recorded_model (last_obs rewards : ndarray)
    (m : ActorCritic) :
  flush_calls (recorded_model last_obs rewards m) = flush_calls m.
Proof.
  unfold flush_calls, recorded_model.
  destruct (observation_normalizer m) eqn:E1;
    destruct (return_normalizer m) eqn:E2; cbn; rewrite ?E1, ?E2; cbn;
    rewrite ?E1, ?E2; reflexivity.
Qed.

(** C1. After a [step], an [update] whose transition the replay accepts
    makes these calls and no others, in this order: [store]; the
    normalizers' [record] (those present); [ready]; and, exactly when
    [ready] answered true, the learning pass: [get_full] of observations and
    next-observations, the critic on each, [compute_returns] with the two
    results, [get_full] of (observations, actions, advantages, log_probs),
    one actor-updater call on that batch, [get('observations', 'returns')],
    one critic-updater call per batch it yields, then the observation
    normalizer's update followed by the return normalizer's update (each
    only if present).  The replay is assumed to answer the first [get_full]
    with a batch that holds the two requested fields. *)
Theorem update_runs_learning_pass_iff_ready :
  forall (w : World) (observations rewards resets terminations : ndarray)
         (last_obs last_act last_lp : ndarray) (r1 : Replay)
         (o no : ndarray),
    last_observations (self w) = Some last_obs ->
    last_actions (self w) = Some last_act ->
    last_log_probs (self w) = Some last_lp ->
    replay_store
      (transition last_obs last_act observations rewards resets terminations
         last_lp) (replay (self w)) = Some r1 ->
    (replay_ready r1 = true ->
     binds2 "observations" "next_observations"
       (fst (replay_get_full ["observations"; "next_observations"] r1))
       o no) ->
    let w' := snd (update observations rewards resets terminations w) in
    fst (update observations rewards resets terminations w) = Ok tt
    /\ new_calls w w' =
         EReplayStore
           (transition last_obs last_act observations rewards resets
              terminations last_lp)
         :: record_calls last_obs rewards (model (self w))
         ++ EReplayReady (replay_ready r1)
            :: (if replay_ready r1
                then learning_pass_calls
                       (recorded_model last_obs rewards (model (self w)))
                       r1 o no
                else [])
    /\ existsb is_learning_call (new_calls w w') = replay_ready r1.
Proof.
  intros w observations rewards resets terminations last_obs last_act last_lp
    r1 o no L1 L2 L3 S B w'. subst w'.
  destruct (update_run w observations rewards resets terminations
              last_obs last_act last_lp r1 o no L1 L2 L3 S B)
    as (w' & E & C & _).
  rewrite E. cbn [fst snd].
  rewrite (new_calls_app _ _ _ C).
  split; [reflexivity|]. split; [reflexivity|].
  cbn [existsb is_learning_call orb].
  rewrite existsb_app, existsb_record_calls.
  destruct (replay_ready r1); reflexivity.
Qed.

(** C6. In an [update] whose transition the replay accepts, no error is
    raised whether or not the normalizers are configured.  The calls after
    [store] and before [ready] are exactly the [record] calls of the
    normalizers present: the observation normalizer records the last
    (pre-step) observations, the return normalizer the raw rewards.  After
    [ready] the only normalizer calls are the [update] calls of the
    normalizers present, and only if the learning pass runs.  An absent
    normalizer stays absent and receives no call. *)
Theorem normalizers_are_optional :
  forall (w : World) (observations rewards resets terminations : ndarray)
         (last_obs last_act last_lp : ndarray) (r1 : Replay)
         (o no : ndarray),
    last_observations (self w) = Some last_obs ->
    last_actions (self w) = Some last_act ->
    last_log_probs (self w) = Some last_lp ->
    replay_store
      (transition last_obs last_act observations rewards resets terminations
         last_lp) (replay (self w)) = Some r1 ->
    (replay_ready r1 = true ->
     binds2 "observations" "next_observations"
       (fst (replay_get_full ["observations"; "next_observations"] r1))
       o no) ->
    let w' := snd (update observations rewards resets terminations w) in
    let m := model (self w) in
    fst (update observations rewards resets terminations w) = Ok tt
    /\ (exists rest,
          new_calls w w' =
            EReplayStore
              (transition last_obs last_act observations rewards resets
                 terminations last_lp)
            :: record_calls last_obs rewards m
            ++ EReplayReady (replay_ready r1) :: rest
          /\ filter is_normalizer_call rest =
               if replay_ready r1 then flush_calls m else [])
    /\ observation_normalizer (model (self w'))
       = option_map
           (fun n =>
              if replay_ready r1
              then normalizer_update (normalizer_record last_obs n)
              else normalizer_record last_obs n)
           (observation_normalizer m)
    /\ return_normalizer (model (self w'))
       = option_map
           (fun n =>
              if replay_ready r1
              then normalizer_update (normalizer_record rewards n)
              else normalizer_record rewards n)
           (return_normalizer m).
Proof.
  intros w observations rewards resets terminations last_obs last_act last_lp
    r1 o no L1 L2 L3 S B w' m. subst w' m.
  destruct (update_run w observations rewards resets terminations
              last_obs last_act last_lp r1 o no L1 L2 L3 S B)
    as (w' & E & C & N1 & N2 & _).
  rewrite E. cbn [fst snd].
  rewrite (new_calls_app _ _ _ C).
  split; [reflexivity|]. split; [|split; assumption].
  eexists. split; [reflexivity|].
  destruct (replay_ready r1); [|reflexivity].
  unfold learning_pass_calls. cbv zeta. cbn [app filter is_normalizer_call].
  rewrite filter_app, filter_critic_updater_calls, filter_flush_calls.
  apply flush_calls_recorded_model.
Qed.

Section Emits.
Variable P : event -> bool.

Lemma emits_silent {A} (c : M A) :
  (forall w, calls (snd (c w)) = calls w) -> emits_only P c.
Proof.
  intros E w. exists []. rewrite app_nil_r. auto.
Qed.

Lemma emits_ret {A} (a : A) : emits_only P (ret a).
Proof. apply emits_silent. reflexivity. Qed.

Lemma emits_raise {A} (e : exn) : emits_only P (@raise _ A e).
Proof. apply emits_silent. reflexivity. Qed.

Lemma emits_gets {A} (f : A2C -> A) : emits_only P (gets f).
Proof. apply emits_silent. reflexivity. Qed.

Lemma emits_modify_self (f : A2C -> A2C) : emits_only P (modify_self f).
Proof. apply emits_silent. reflexivity. Qed.

Lemma emits_logger_store (k : string) (v : ndarray) :
  emits_only P (logger_store k v).
Proof. apply emits_silent. reflexivity. Qed.

Lemma emits_draw {A} (f : Rng -> A * Rng) : emits_only P (draw f).
Proof.
  apply emits_silent. intros w. unfold draw.
  destruct (f (torch_rng w)). reflexivity.
Qed.

Lemma emits_getattr (name : string) (f : A2C -> option ndarray) :
  emits_only P (getattr name f).
Proof.
  apply emits_silent. intros w. unfold getattr.
  destruct (f (self w)); reflexivity.
Qed.

Lemma emits_emit (e : event) : P e = true -> emits_only P (emit e).
Proof.
  intros Pe w. exists [e]. cbn. rewrite Pe. auto.
Qed.

Lemma emits_bind {A B} (c : M A) (k : A -> M B) :
  emits_only P c -> (forall a, emits_only P (k a)) -> emits_only P (bind c k).
Proof.
  intros Ec Ek w. unfold bind.
  destruct (Ec w) as (l1 & C1 & F1).
  destruct (c w) as [[a|e] w1]; cbn in C1.
  - destruct (Ek a w1) as (l2 & C2 & F2).
    exists (l1 ++ l2). rewrite C2, C1, app_assoc, forallb_app, F1, F2. auto.
  - exists l1. auto.
Qed.

Lemma emits_for_each {A} (xs : list A) (body : A -> M unit) :
  (forall x, emits_only P (body x)) -> emits_only P (for_each xs body).
Proof.
  intros Eb. induction xs as [|x xs IH]; cbn.
  - apply emits_ret.
  - apply emits_bind; auto.
Qed.

End Emits.

Ltac emits_step :=
  first
    [ apply emits_ret | apply emits_raise | apply emits_gets
    | apply emits_modify_self | apply emits_logger_store | apply emits_draw
    | apply emits_getattr
    | apply emits_emit; reflexivity
    | apply emits_for_each; intros
    | apply emits_bind; [|intros]
    | match goal with
      | |- emits_only _ (match ?x with _ => _ end) => destruct x
      end ].

Ltac emits := repeat emits_step.

Lemma _update_never_stores : emits_only not_store _update.
Proof.
  unfold _update, _evaluate, bind_kwargs2, store_infos,
    call_replay_get_full, call_replay_compute_returns, call_actor_updater,
    call_replay_get, call_critic_updater, call_critic,
    update_observation_normalizer, update_return_normalizer.
  emits.
Qed.

Lemma forallb_not_store (l : list event) :
  forallb not_store l = true -> filter is_store l = [].
Proof.
  induction l as [|e l IH]; cbn; [reflexivity|].
  unfold not_store at 1. destruct (is_store e); cbn; [discriminate | exact IH].
Qed.

Lemma getattr_run (name : string) (f : A2C -> option ndarray)
    (v : ndarray) (w : World) :
  f (self w) = Some v -> getattr name f w = (Ok v, w).
Proof. intros E. unfold getattr. rewrite E. reflexivity. Qed.

Lemma store_then_rest (tr : kwargs) (rest_of_update : M unit) (w : World) :
  emits_only not_store rest_of_update ->
  exists rest,
    new_calls w (snd ((call_replay_store tr ;; rest_of_update) w)) =
      EReplayStore tr :: rest
    /\ filter is_store rest = [].
Proof.
  intros K. unfold call_replay_store, bind, gets, emit. cbn.
  destruct (replay_store tr (replay (self w))) as [r1|]; cbn.
  - match goal with
    | |- context [rest_of_update ?w0] => destruct (K w0) as (l & C & F)
    end.
    exists l. split; [|apply forallb_not_store; exact F].
    apply new_calls_app. rewrite C. cbn. rewrite <- app_assoc. reflexivity.
  - exists []. split; [|reflexivity].
    apply new_calls_app. reflexivity.
Qed.

Lemma update_stores_once (w : World)
    (observations rewards resets terminations : ndarray)
    (last_obs last_act last_lp : ndarray) :
  last_observations (self w) = Some last_obs ->
  last_actions (self w) = Some last_act ->
  last_log_probs (self w) = Some last_lp ->
  exists rest,
    new_calls w (snd (update observations rewards resets terminations w)) =
      EReplayStore
        (transition last_obs last_act observations rewards resets
           terminations last_lp) :: rest
    /\ filter is_store rest = [].
Proof.
  intros L1 L2 L3. unfold update, transition.
  rewrite (bind_ok _ _ _ _ _ (getattr_run _ _ _ _ L1)).
  rewrite (bind_ok _ _ _ _ _ (getattr_run _ _ _ _ L2)).
  rewrite (bind_ok _ _ _ _ _ (getattr_run _ _ _ _ L3)).
  apply store_then_rest.
  unfold record_observations, record_returns, call_replay_ready.
  repeat first [apply _update_never_stores | emits_step].
Qed.

(** C4, as the code has it.  Each [step] call asks the distribution object
    returned by the actor for that call whether it has
    [sample_with_log_prob]: if so the combined operation is the only
    distribution method called, otherwise [sample] and then [log_prob] are
    called. *)
Theorem sampling_operation_is_chosen_per_call :
  forall (w : World) (observations : ndarray),
    let d := actor (model (self w)) observations in
    new_calls w (snd (step observations w)) =
      EActor observations :: sampling_calls d (torch_rng w)
    /\ step_uses_combined w observations = hasattr_sample_with_log_prob d.
Proof.
  intros w observations d. subst d.
  assert (C : new_calls w (snd (step observations w)) =
              EActor observations
              :: sampling_calls (actor (model (self w)) observations)
                   (torch_rng w)).
  { rewrite step_run. apply new_calls_app. reflexivity. }
  split; [exact C|].
  unfold step_uses_combined. rewrite C.
  unfold sampling_calls, hasattr_sample_with_log_prob.
  destruct (sample_with_log_prob (actor (model (self w)) observations));
    reflexivity.
Qed.

Lemma update_without_cache (w : World)
    (observations rewards resets terminations : ndarray) :
  last_observations (self w) = None ->
  update observations rewards resets terminations w =
    (Raise (AttributeError "last_observations"), w).
Proof.
  intros L. unfold update, bind, getattr. rewrite L. reflexivity.
Qed.

Lemma run_keeps_cache_absent (cs : list call_without_step) :
  forall w : World,
    last_observations (self w) = None ->
    last_observations (self (run cs w)) = None.
Proof.
  induction cs as [|c cs IH]; intros w L; [exact L|].
  cbn [run]. apply IH. destruct c as [os acs seed|o|o r rs tm]; cbn [perform].
  - exact L.
  - unfold bind. rewrite test_step_run.
    destruct (sample_requires_grad _); exact L.
  - rewrite update_without_cache by exact L. exact L.
Qed.

(** C7. On an agent that has been constructed and then driven by any
    sequence of [initialize], [test_step] and [update] calls, but never by
    [step], [update] raises at once (the attribute [last_observations] does
    not exist) and leaves the world as it was: nothing reaches the replay. *)
Theorem update_before_any_step_raises :
  forall (m : option ActorCritic) (r : option Replay)
         (au : option ActorUpdater) (cu : option CriticUpdater) (g : Rng)
         (cs : list call_without_step)
         (observations rewards resets terminations : ndarray),
    let w := run cs (fresh (__init__ m r au cu) g) in
    update observations rewards resets terminations w =
      (Raise (AttributeError "last_observations"), w).
Proof.
  intros m r au cu g cs observations rewards resets terminations w.
  apply update_without_cache. subst w.
  apply run_keeps_cache_absent. reflexivity.
Qed.

Lemma initialize_run (w : World) (observation_space action_space : Space)
    (seed : option N) :
  let a := self w in
  let m := model_initialize observation_space action_space (model a) in
  initialize observation_space action_space seed w =
    (Ok tt,
     {| self :=
          {| model := m;
             replay := replay_initialize seed (replay a);
             actor_updater := actor_updater_initialize m (actor_updater a);
             critic_updater := critic_updater_initialize m (critic_updater a);
             last_observations := last_observations a;
             last_actions := last_actions a;
             last_log_probs := last_log_probs a |};
        torch_rng := TorchAgent_initialize seed (torch_rng w);
        logger := logger w;
        calls :=
          calls w ++ [EModelInitialize; EReplayInitialize seed;
                      EActorUpdaterInitialize; ECriticUpdaterInitialize] |}).
Proof.
  unfold initialize, super_initialize, bind, gets, emit, modify_self. cbn.
  rewrite <- !app_assoc. reflexivity.
Qed.

(** X3. [_evaluate] assigns nothing: the agent object and the logger are
    as before, whatever the batch.  Whenever it returns, the batch held
    exactly [observations] and [next_observations], both results come from
    the critic of the same, unchanged model, and the only calls made are the
    critic on the observations and then on the next-observations. *)
Theorem _evaluate_only_reads :
  forall (batch : kwargs) (w : World),
    let w' := snd (_evaluate batch w) in
    self w' = self w
    /\ logger w' = logger w
    /\ forall values next_values : ndarray,
         fst (_evaluate batch w) = Ok (values, next_values) ->
         exists o no,
           binds2 "observations" "next_observations" batch o no
           /\ values = critic (model (self w)) o
           /\ next_values = critic (model (self w)) no
           /\ new_calls w w' = [ECritic o; ECritic no].
Proof.
  intros batch w w'. subst w'.
  unfold _evaluate, bind_kwargs2, binds2.
  destruct (lookup "observations" batch) as [o|] eqn:E1;
    [destruct (lookup "next_observations" batch) as [no|] eqn:E2;
     [destruct (forallb _ (keys batch)) eqn:E3|]|];
    cbn; (split; [reflexivity|]); (split; [reflexivity|]);
    intros values next_values E; try discriminate.
  injection E as <- <-.
  exists o, no. split; [auto|]. split; [reflexivity|]. split; [reflexivity|].
  apply new_calls_app. unfold as_tensor. rewrite <- app_assoc. reflexivity.
Qed.

(** X4. A batch that lacks [observations] or [next_observations], or that
    holds any other key, makes [_evaluate] raise a TypeError at once: the
    critic is not called and the world is unchanged. *)
Theorem _evaluate_rejects_a_malformed_batch :
  forall (batch : kwargs) (w : World),
    lookup "observations" batch = None
    \/ lookup "next_observations" batch = None
    \/ forallb (fun k => String.eqb k "observations"
                         || String.eqb k "next_observations")
         (keys batch) = false ->
    exists name, _evaluate batch w = (Raise (TypeError name), w).
Proof.
  intros batch w Bad. unfold _evaluate, bind, bind_kwargs2.
  destruct (lookup "observations" batch) as [o|];
    [destruct (lookup "next_observations" batch) as [no|];
     [destruct (forallb _ (keys batch))|]|];
    cbn; eauto.
  destruct Bad as [Bad|[Bad|Bad]]; discriminate.
Qed.

(** X5. When the replay refuses the transition, [update] raises right after
    the [store] call: no normalizer records anything, [ready] is not asked,
    no learning pass runs, and the agent object and the logger are as
    before. *)
Theorem update_stops_when_store_is_refused :
  forall (w : World) (observations rewards resets terminations : ndarray)
         (last_obs last_act last_lp : ndarray),
    last_observations (self w) = Some last_obs ->
    last_actions (self w) = Some last_act ->
    last_log_probs (self w) = Some last_lp ->
    replay_store
      (transition last_obs last_act observations rewards resets terminations
         last_lp) (replay (self w)) = None ->
    update observations rewards resets terminations w =
      (Raise ReplayError,
       {| self := self w; torch_rng := torch_rng w; logger := logger w;
          calls :=
            calls w
            ++ [EReplayStore
                  (transition last_obs last_act observations rewards resets
                     terminations last_lp)] |}).
Proof.
  intros w observations rewards resets terminations last_obs last_act last_lp
    L1 L2 L3 S.
  unfold update, transition in *.
  unfold getattr, call_replay_store, bind, gets, emit, raise. cbn.
  rewrite L1, L2, L3. cbn. rewrite S. reflexivity.
Qed.

(** X6. While the replay is not ready, [update] trains nothing: the model's
    parameters, both updaters and the logger are as before; the replay is
    the one [store] returned and the model differs only by what the present
    normalizers recorded. *)
Theorem update_before_the_segment_is_full_trains_nothing :
  forall (w : World) (observations rewards resets terminations : ndarray)
         (last_obs last_act last_lp : ndarray) (r1 : Replay),
    last_observations (self w) = Some last_obs ->
    last_actions (self w) = Some last_act ->
    last_log_probs (self w) = Some last_lp ->
    replay_store
      (transition last_obs last_act observations rewards resets terminations
         last_lp) (replay (self w)) = Some r1 ->
    replay_ready r1 = false ->
    update observations rewards resets terminations w =
      (Ok tt,
       {| self :=
            set_model (recorded_model last_obs rewards (model (self w)))
              (set_replay r1 (self w));
          torch_rng := torch_rng w;
          logger := logger w;
          calls :=
            calls w
            ++ EReplayStore
                 (transition last_obs last_act observations rewards resets
                    terminations last_lp)
               :: record_calls last_obs rewards (model (self w))
               ++ [EReplayReady false] |})
    /\ params (recorded_model last_obs rewards (model (self w)))
       = params (model (self w)).
Proof.
  intros w observations rewards resets terminations last_obs last_act last_lp
    r1 L1 L2 L3 S R.
  unfold update, transition in *.
  unfold getattr, call_replay_store, call_replay_ready, record_observations,
    record_returns, record_calls, recorded_model, bind, gets, emit,
    modify_self, ret.
  cbn. rewrite L1, L2, L3. cbn. rewrite S. cbn.
  destruct (observation_normalizer (model (self w))) as [n1|] eqn:E1;
    destruct (return_normalizer (model (self w))) as [n2|] eqn:E2;
    cbn; rewrite ?L1; cbn; rewrite ?E2; cbn; rewrite R; cbn;
    rewrite <- ?app_assoc; cbn; split; reflexivity.
Qed.

Lemma run_acting_frame (cs : list acting_call) :
  forall w : World,
    exists l,
      calls (run_acting cs w) = calls w ++ l
      /\ forallb is_acting_call l = true
      /\ length (filter is_actor_call l) = length cs
      /\ model (self (run_acting cs w)) = model (self w)
      /\ replay (self (run_acting cs w)) = replay (self w)
      /\ actor_updater (self (run_acting cs w)) = actor_updater (self w)
      /\ critic_updater (self (run_acting cs w)) = critic_updater (self w)
      /\ logger (run_acting cs w) = logger w.
Proof.
  induction cs as [|c cs IH]; intros w.
  - exists []. cbn. rewrite app_nil_r. auto 10.
  - cbn [run_acting].
    destruct (IH (snd (act c w))) as (l & C & F & K & M1 & M2 & M3 & M4 & M5).
    rewrite C, M1, M2, M3, M4, M5.
    destruct c as [o|o]; cbn [act].
    + rewrite step_run. cbn [snd calls self logger].
      exists (EActor o :: sampling_calls (actor (model (self w)) o)
                (torch_rng w) ++ l).
      rewrite <- app_assoc. split; [reflexivity|].
      unfold sampling_calls.
      destruct (sample_with_log_prob (actor (model (self w)) o));
        cbn; rewrite F, K; auto 10.
    + rewrite test_step_run. cbn [snd calls self logger].
      exists ([EActor o; ESample] ++ l).
      rewrite <- app_assoc. split; [reflexivity|].
      cbn. rewrite F, K. auto 10.
Qed.

(** X8. Any sequence of [step] and [test_step] calls leaves the model, the
    replay, both updaters and the logger as they were; each call makes
    exactly one forward pass of the actor, and the only other calls are the
    distribution's sampling and log-probability methods. *)
Theorem acting_never_touches_the_training_state :
  forall (cs : list acting_call) (w : World),
    let w' := run_acting cs w in
    model (self w') = model (self w)
    /\ replay (self w') = replay (self w)
    /\ actor_updater (self w') = actor_updater (self w)
    /\ critic_updater (self w') = critic_updater (self w)
    /\ logger w' = logger w
    /\ forallb is_acting_call (new_calls w w') = true
    /\ length (filter is_actor_call (new_calls w w')) = length cs.
Proof.
  intros cs w w'. subst w'.
  destruct (run_acting_frame cs w) as (l & C & F & K & M1 & M2 & M3 & M4 & M5).
  rewrite (new_calls_app _ _ _ C). auto 10.
Qed.

(** X9. On a distribution without [sample_with_log_prob] whose sample does
    not require grad, [step] returns the action [test_step] returns on the
    same world and leaves the random generator in the same state. *)
Theorem step_and_test_step_sample_alike :
  forall (w : World) (observations : ndarray),
    sample_with_log_prob (actor (model (self w)) observations) = None ->
    sample_requires_grad (actor (model (self w)) observations) = false ->
    fst (step observations w) = fst (test_step observations w)
    /\ torch_rng (snd (step observations w))
       = torch_rng (snd (test_step observations w)).
Proof.
  intros w observations E G. rewrite step_run, test_step_run. cbv zeta.
  unfold sampled_actions, rng_after_sampling. rewrite E, G.
  split; reflexivity.
Qed.

(** X13. When the distribution's log-probability output for the sampled
    action is a matrix of [n] rows (one per environment) and [k] columns
    (one per action dimension), [step] caches the vector of the [n] row
    sums. *)
Theorem step_caches_row_sums_of_a_matrix :
  forall (w : World) (observations : ndarray) (k : nat)
         (rows : list (list Q)),
    raw_log_probs (actor (model (self w)) observations) (torch_rng w)
    = {| shape := [length rows; k]; data := concat rows |} ->
    Forall (fun row => length row = k) rows ->
    last_log_probs (self (snd (step observations w)))
    = Some {| shape := [length rows]; data := map Qsum rows |}.
Proof.
  intros w observations k rows E Hrows.
  rewrite step_run. cbn [snd self last_log_probs set_last_log_probs].
  rewrite E. unfold sum_last_axis.
  cbn [shape rev app data numel fold_right].
  rewrite Nat.mul_1_r. f_equal. f_equal. f_equal.
  clear E. induction Hrows as [|row rows Hrow _ IH]; [reflexivity|].
  cbn [length concat chunks].
  rewrite firstn_app, skipn_app, Hrow, Nat.sub_diag.
  rewrite <- Hrow at 1 3. rewrite firstn_all, skipn_all.
  cbn [firstn skipn app]. rewrite app_nil_r, IH. reflexivity.
Qed.

Section Preserves.
Context {X : Type} (f : A2C -> X).

Lemma preserves_self {A} (c : M A) :
  (forall w, self (snd (c w)) = self w) -> preserves f c.
Proof. intros E w. rewrite E. reflexivity. Qed.

Lemma preserves_ret {A} (a : A) : preserves f (ret a).
Proof. apply preserves_self. reflexivity. Qed.

Lemma preserves_raise {A} (e : exn) : preserves f (@raise _ A e).
Proof. apply preserves_self. reflexivity. Qed.

Lemma preserves_gets {A} (g : A2C -> A) : preserves f (gets g).
Proof. apply preserves_self. reflexivity. Qed.

Lemma preserves_emit (e : event) : preserves f (emit e).
Proof. apply preserves_self. reflexivity. Qed.

Lemma preserves_logger_store (k : string) (v : ndarray) :
  preserves f (logger_store k v).
Proof. apply preserves_self. reflexivity. Qed.

Lemma preserves_draw {A} (g : Rng -> A * Rng) : preserves f (draw g).
Proof.
  apply preserves_self. intros w. unfold draw.
  destruct (g (torch_rng w)). reflexivity.
Qed.

Lemma preserves_getattr (name : string) (g : A2C -> option ndarray) :
  preserves f (getattr name g).
Proof.
  apply preserves_self. intros w. unfold getattr.
  destruct (g (self w)); reflexivity.
Qed.

Lemma preserves_modify_self (g : A2C -> A2C) :
  (forall a, f (g a) = f a) -> preserves f (modify_self g).
Proof. intros E w. cbn. apply E. Qed.

Lemma preserves_bind {A B} (c : M A) (k : A -> M B) :
  preserves f c -> (forall a, preserves f (k a)) -> preserves f (bind c k).
Proof.
  intros Pc Pk w. unfold bind. specialize (Pc w).
  destruct (c w) as [[a|e] w1]; cbn in Pc.
  - rewrite (Pk a w1). exact Pc.
  - exact Pc.
Qed.

Lemma preserves_for_each {A} (xs : list A) (body : A -> M unit) :
  (forall x, preserves f (body x)) -> preserves f (for_each xs body).
Proof.
  intros Pb. induction xs as [|x xs IH]; cbn.
  - apply preserves_ret.
  - apply preserves_bind; auto.
Qed.

End Preserves.

Ltac preserves_step :=
  first
    [ apply preserves_ret | apply preserves_raise | apply preserves_gets
    | apply preserves_emit | apply preserves_logger_store
    | apply preserves_draw | apply preserves_getattr
    | apply preserves_modify_self; intros; reflexivity
    | apply preserves_for_each; intros
    | apply preserves_bind; [|intros]
    | match goal with
      | |- preserves _ (match ?x with _ => _ end) => destruct x
      end ].

Lemma update_preserves_cache
    (observations rewards resets terminations : ndarray) :
  preserves cache (update observations rewards resets terminations).
Proof.
  unfold update, _update, _evaluate, bind_kwargs2, store_infos,
    call_replay_store, call_replay_ready, call_replay_get_full,
    call_replay_compute_returns, call_actor_updater, call_replay_get,
    call_critic_updater, call_critic, record_observations, record_returns,
    update_observation_normalizer, update_return_normalizer.
  repeat preserves_step.
Qed.

(** X7. [update] never clears or changes the cached last-step values,
    whether it returns or raises.  So a second [update] with no [step] in
    between stores another transition built from the same cached
    observations, actions and log-probabilities. *)
Theorem update_without_a_new_step_reuses_the_cache :
  forall (w : World) (observations : ndarray)
         (next1 rewards1 resets1 terminations1 : ndarray)
         (next2 rewards2 resets2 terminations2 : ndarray),
    let d := actor (model (self w)) observations in
    let actions := sampled_actions d (torch_rng w) in
    let log_probs := sum_last_axis (raw_log_probs d (torch_rng w)) in
    let w1 := snd (step observations w) in
    let w2 := snd (update next1 rewards1 resets1 terminations1 w1) in
    cache (self w2) = (Some observations, Some actions, Some log_probs)
    /\ exists rest,
         new_calls w2 (snd (update next2 rewards2 resets2 terminations2 w2))
         = EReplayStore
             (transition observations actions next2 rewards2 resets2
                terminations2 log_probs) :: rest
         /\ filter is_store rest = [].
Proof.
  intros w observations next1 rewards1 resets1 terminations1
    next2 rewards2 resets2 terminations2 d actions log_probs w1 w2.
  assert (C : cache (self w2)
              = (Some observations, Some actions, Some log_probs)).
  { subst w2. rewrite update_preserves_cache.
    subst w1 d actions log_probs. rewrite step_run. reflexivity. }
  split; [exact C|].
  unfold cache in C. injection C as L1 L2 L3.
  apply update_stores_once; assumption.
Qed.

(** X2. Re-initializing the agent does not clear the cached last-step
    values: an [update] after [step] and then [initialize] still stores the
    step's observations, actions and log-probabilities, now into the
    re-initialized replay. *)
Theorem initialize_keeps_the_cache :
  forall (w : World) (observations : ndarray)
         (observation_space action_space : Space) (seed : option N)
         (next_observations rewards resets terminations : ndarray),
    let d := actor (model (self w)) observations in
    let actions := sampled_actions d (torch_rng w) in
    let log_probs := sum_last_axis (raw_log_probs d (torch_rng w)) in
    let w1 := snd (step observations w) in
    let w2 := snd (initialize observation_space action_space seed w1) in
    replay (self w2) = replay_initialize seed (replay (self w))
    /\ exists rest,
         new_calls w2
           (snd (update next_observations rewards resets terminations w2))
         = EReplayStore
             (transition observations actions next_observations rewards
                resets terminations log_probs) :: rest
         /\ filter is_store rest = [].
Proof.
  intros w observations observation_space action_space seed
    next_observations rewards resets terminations d actions log_probs w1 w2.
  subst w2. rewrite initialize_run. cbn [snd self replay].
  subst w1 d actions log_probs. rewrite step_run.
  split; [reflexivity|].
  apply update_stores_once; reflexivity.
Qed.




Lemma bind_raise {A B} (c : M A) (k : A -> M B) (w w1 : World) (e : exn) :
  c w = (Raise e, w1) -> bind c k w = (Raise e, w1).
Proof. intros E. unfold bind. rewrite E. reflexivity. Qed.

Lemma store_infos_exact (prefix : string) (infos : kwargs) :
  forall w : World,
    store_infos prefix infos w =
      (Ok tt, {| self := self w; torch_rng := torch_rng w;
                 logger := logger w ++ prefixed prefix infos;
                 calls := calls w |}).
Proof.
  unfold store_infos, prefixed.
  induction infos as [|kv infos IH]; intros w; cbn.
  - rewrite app_nil_r. destruct w; reflexivity.
  - specialize (IH {| self := self w; torch_rng := torch_rng w;
                      logger := logger w ++ [((prefix ++ fst kv)%string,
                                              numpy (snd kv))];
                      calls := calls w |}).
    cbn in IH. rewrite IH, <- app_assoc. reflexivity.
Qed.

Lemma critic_loop_exact (batches : list kwargs) :
  forall w : World,
    let epochs :=
      critic_epochs batches (critic_updater (self w)) (model (self w)) in
    for_each batches
      (fun batch =>
         infos <- call_critic_updater batch ;;
         store_infos "critic/" infos) w =
      (Ok tt,
       {| self :=
            set_model (snd epochs)
              (set_critic_updater (snd (fst epochs)) (self w));
          torch_rng := torch_rng w;
          logger :=
            logger w ++ flat_map (prefixed "critic/") (fst (fst epochs));
          calls := calls w ++ map ECriticUpdater batches |}).
Proof.
  induction batches as [|b batches IH]; intros w.
  - cbn. rewrite !app_nil_r.
    destruct w as [[m r au cu lo la ll] g lg cl]. reflexivity.
  - cbn [for_each map critic_epochs]. cbv zeta.
    unfold bind at 1 2. rewrite call_critic_updater_run. cbv zeta.
    rewrite store_infos_exact.
    match goal with
    | |- context [for_each batches ?body ?w0] => rewrite (IH w0)
    end.
    cbn. rewrite <- !app_assoc. reflexivity.
Qed.

Lemma flush_frame (w : World) :
  exists w',
    (m <- gets model ;;
     match observation_normalizer m with
     | Some n => update_observation_normalizer n
     | None => ret tt
     end ;;
     m <- gets model ;;
     match return_normalizer m with
     | Some n => update_return_normalizer n
     | None => ret tt
     end) w = (Ok tt, w')
    /\ params (model (self w')) = params (model (self w))
    /\ replay (self w') = replay (self w)
    /\ actor_updater (self w') = actor_updater (self w)
    /\ critic_updater (self w') = critic_updater (self w)
    /\ logger w' = logger w
    /\ torch_rng w' = torch_rng w.
Proof.
  unfold bind, gets, update_observation_normalizer,
    update_return_normalizer, emit, modify_self, ret.
  cbn.
  destruct (observation_normalizer (model (self w))) as [n1|] eqn:E1;
    destruct (return_normalizer (model (self w))) as [n2|] eqn:E2;
    cbn; rewrite ?E2; cbn; eexists; (split; [reflexivity|]); cbn; auto 10.
Qed.

Lemma _update_outcome (w : World) (o no : ndarray) :
  binds2 "observations" "next_observations"
    (fst (replay_get_full ["observations"; "next_observations"]
            (replay (self w)))) o no ->
  let result := learning_pass_outcome (self w) o no in
  exists w',
    _update w = (Ok tt, w')
    /\ params (model (self w')) = out_params result
    /\ actor_updater (self w') = out_actor_updater result
    /\ critic_updater (self w') = out_critic_updater result
    /\ replay (self w') = out_replay result
    /\ logger w' =
         logger w ++ prefixed "actor/" (out_actor_infos result)
         ++ flat_map (prefixed "critic/") (out_critic_infos result)
    /\ torch_rng w' = torch_rng w.
Proof.
  intros B result. subst result.
  unfold _update, learning_pass_outcome, numpy. cbv zeta.
  rewrite (bind_ok _ _ _ _ _ (call_replay_get_full_run _ w)).
  erewrite bind_ok by (apply _evaluate_run; exact B). cbn.
  rewrite (bind_ok _ _ _ _ _ (call_replay_get_full_run _ _)). cbn.
  rewrite (bind_ok _ _ _ _ _ (call_actor_updater_run _ _)). cbn.
  rewrite (bind_ok _ _ _ _ _ (store_infos_exact _ _ _)). cbn.
  rewrite (bind_ok _ _ _ _ _ (call_replay_get_run _ _)). cbn.
  rewrite (bind_ok _ _ _ _ _ (critic_loop_exact _ _)).
  match goal with
  | |- context [bind (gets model) ?k ?w0] =>
      destruct (flush_frame w0) as (w' & E' & P & R & AU & CU & L & G)
  end.
  exists w'. split; [exact E'|].
  cbn in P, R, AU, CU, L, G.
  rewrite P, R, AU, CU, L, G, <- app_assoc. auto 10.
Qed.

(** X11. A learning pass on a well-formed replay trains in sequence: the
    critic's values are computed with the parameters the pass starts with,
    the actor updater is called once on them, and the critic updater is then
    run over the batches in order, each call seeing the updater and the
    parameters left by the call before it.  The agent ends up with the
    parameters and updaters of the last call and with the replay as [get]
    left it. *)
Theorem learning_pass_trains_in_sequence :
  forall (w : World) (o no : ndarray),
    binds2 "observations" "next_observations"
      (fst (replay_get_full ["observations"; "next_observations"]
              (replay (self w)))) o no ->
    let result := learning_pass_outcome (self w) o no in
    let w' := snd (_update w) in
    fst (_update w) = Ok tt
    /\ params (model (self w')) = out_params result
    /\ actor_updater (self w') = out_actor_updater result
    /\ critic_updater (self w') = out_critic_updater result
    /\ replay (self w') = out_replay result.
Proof.
  intros w o no B result w'. subst w'.
  destruct (_update_outcome w o no B) as (w' & E & P & AU & CU & R & _ & G).
  rewrite E. cbn [fst snd]. auto 10.
Qed.

(** X12. A learning pass on a well-formed replay appends to the logger,
    in order, the actor updater's diagnostics under ['actor/' + key] and
    then, for each batch in turn, the critic updater's diagnostics under
    ['critic/' + key]; the entries already there are kept. *)
Theorem learning_pass_logs_diagnostics_in_order :
  forall (w : World) (o no : ndarray),
    binds2 "observations" "next_observations"
      (fst (replay_get_full ["observations"; "next_observations"]
              (replay (self w)))) o no ->
    let result := learning_pass_outcome (self w) o no in
    logger (snd (_update w)) =
      logger w ++ prefixed "actor/" (out_actor_infos result)
      ++ flat_map (prefixed "critic/") (out_critic_infos result).
Proof.
  intros w o no B result.
  destruct (_update_outcome w o no B) as (w' & E & _ & _ & _ & _ & L & _).
  rewrite E. exact L.
Qed.

(** X14. When the first full batch does not unpack into [observations] and
    [next_observations], the learning pass raises a TypeError after the one
    [get_full] call: the critic, [compute_returns], the updaters and the
    normalizers are not called and the logger is unchanged, but the replay
    is left as that [get_full] left it. *)
Theorem learning_pass_aborts_on_a_malformed_batch :
  forall w : World,
    let ks := ["observations"; "next_observations"] in
    let batch := fst (replay_get_full ks (replay (self w))) in
    lookup "observations" batch = None
    \/ lookup "next_observations" batch = None
    \/ forallb (fun k => String.eqb k "observations"
                         || String.eqb k "next_observations")
         (keys batch) = false ->
    exists name,
      _update w =
        (Raise (TypeError name),
         {| self :=
              set_replay (snd (replay_get_full ks (replay (self w))))
                (self w);
            torch_rng := torch_rng w; logger := logger w;
            calls := calls w ++ [EReplayGetFull ks] |}).
Proof.
  intros w ks batch Bad. subst ks. unfold _update.
  rewrite (bind_ok _ _ _ _ _ (call_replay_get_full_run _ w)).
  fold batch.
  match goal with
  | |- context [bind (_evaluate batch) ?k ?w0] =>
      assert (E : exists name,
                 _evaluate batch w0 = (Raise (TypeError name), w0))
  end.
  { unfold _evaluate, bind, bind_kwargs2.
    destruct (lookup "observations" batch) as [o|];
      [destruct (lookup "next_observations" batch) as [no|];
       [destruct (forallb _ (keys batch))|]|];
      cbn; eauto.
    destruct Bad as [Bad|[Bad|Bad]]; discriminate. }
  destruct E as [name E]. exists name.
  rewrite (bind_raise _ _ _ _ _ E). reflexivity.
Qed.

Lemma update_after_store (w : World)
    (observations rewards resets terminations : ndarray)
    (last_obs last_act last_lp : ndarray) (r1 : Replay) :
  last_observations (self w) = Some last_obs ->
  last_actions (self w) = Some last_act ->
  last_log_probs (self w) = Some last_lp ->
  replay_store
    (transition last_obs last_act observations rewards resets terminations
       last_lp) (replay (self w)) = Some r1 ->
  update observations rewards resets terminations w =
    (if replay_ready r1 then _update else ret tt)
      {| self :=
           set_model (recorded_model last_obs rewards (model (self w)))
             (set_replay r1 (self w));
         torch_rng := torch_rng w;
         logger := logger w;
         calls :=
           calls w
           ++ EReplayStore
                (transition last_obs last_act observations rewards resets
                   terminations last_lp)
              :: record_calls last_obs rewards (model (self w))
              ++ [EReplayReady (replay_ready r1)] |}.
Proof.
  intros L1 L2 L3 S.
  unfold update, transition in *.
  unfold getattr, call_replay_store, call_replay_ready, record_observations,
    record_returns, record_calls, recorded_model, bind, gets, emit,
    modify_self, ret.
  cbn. rewrite L1, L2, L3. cbn. rewrite S. cbn.
  destruct (observation_normalizer (model (self w))) as [n1|] eqn:E1;
    destruct (return_normalizer (model (self w))) as [n2|] eqn:E2;
    cbn; rewrite ?L1; cbn; rewrite ?E2; cbn;
    rewrite <- ?app_assoc; cbn; reflexivity.
Qed.

Lemma update_when_store_refused (w : World)
    (observations rewards resets terminations : ndarray)
    (last_obs last_act last_lp : ndarray) :
  last_observations (self w) = Some last_obs ->
  last_actions (self w) = Some last_act ->
  last_log_probs (self w) = Some last_lp ->
  replay_store
    (transition last_obs last_act observations rewards resets terminations
       last_lp) (replay (self w)) = None ->
  self (snd (update observations rewards resets terminations w)) = self w.
Proof.
  intros L1 L2 L3 S.
  unfold update, transition in *.
  unfold getattr, call_replay_store, bind, gets, emit, raise. cbn.
  rewrite L1, L2, L3. cbn. rewrite S. reflexivity.
Qed.

Lemma update_replay (w : World)
    (observations rewards resets terminations : ndarray)
    (last_obs last_act last_lp : ndarray) :
  last_observations (self w) = Some last_obs ->
  last_actions (self w) = Some last_act ->
  last_log_probs (self w) = Some last_lp ->
  replay_after_store (self w)
    (transition last_obs last_act observations rewards resets terminations
       last_lp)
    last_obs rewards
    (self (snd (update observations rewards resets terminations w))).
Proof.
  intros L1 L2 L3. unfold replay_after_store.
  destruct (replay_store _ (replay (self w))) as [r1|] eqn:S.
  - rewrite (update_after_store w observations rewards resets terminations
               last_obs last_act last_lp r1 L1 L2 L3 S).
    destruct (replay_ready r1) eqn:R; [|reflexivity].
    intros o no B.
    match goal with
    | |- context [_update ?w0] =>
        destruct (_update_outcome w0 o no B)
          as (w' & E & _ & _ & _ & Rp & _)
    end.
    rewrite E. cbn [snd]. rewrite Rp. reflexivity.
  - rewrite (update_when_store_refused w observations rewards resets
               terminations last_obs last_act last_lp L1 L2 L3 S).
    reflexivity.
Qed.

(** C3. [step] caches the observations it was given, the actions it
    sampled and their log-probabilities.  The [update] that follows calls
    [replay.store] exactly once, with the cached values as observations,
    actions and log_probs and its own arguments as next_observations,
    rewards, resets and terminations, and the replay that [store] returns
    for that transition becomes the agent's replay: it is the replay left
    behind when it is not ready and the one the learning pass works on
    when it is. *)
Theorem step_caches_and_update_stores_the_pair :
  forall (w : World) (observations : ndarray),
    let d := actor (model (self w)) observations in
    let actions := sampled_actions d (torch_rng w) in
    let log_probs := sum_last_axis (raw_log_probs d (torch_rng w)) in
    let w1 := snd (step observations w) in
    fst (step observations w) = Ok actions
    /\ last_observations (self w1) = Some observations
    /\ last_actions (self w1) = Some actions
    /\ last_log_probs (self w1) = Some log_probs
    /\ replay (self w1) = replay (self w)
    /\ forall next_observations rewards resets terminations : ndarray,
         let tr :=
           transition observations actions next_observations rewards
             resets terminations log_probs in
         let w2 :=
           snd (update next_observations rewards resets terminations w1) in
         (exists rest,
            new_calls w1 w2 = EReplayStore tr :: rest
            /\ filter is_store rest = [])
         /\ replay_after_store (self w1) tr observations rewards (self w2).
Proof.
  intros w observations d actions log_probs w1.
  assert (E : step observations w = (Ok actions, w1)).
  { subst w1 d actions log_probs. rewrite step_run. reflexivity. }
  assert (L : last_observations (self w1) = Some observations
              /\ last_actions (self w1) = Some actions
              /\ last_log_probs (self w1) = Some log_probs
              /\ replay (self w1) = replay (self w)).
  { subst w1 d actions log_probs. rewrite step_run. cbn. auto. }
  destruct L as (L1 & L2 & L3 & L4).
  rewrite E. cbn [fst].
  do 5 (split; [assumption || reflexivity|]).
  intros next_observations rewards resets terminations. split.
  - apply update_stores_once; assumption.
  - apply update_replay; assumption.
Qed.

(** C10. A second [step] with no [update] in between succeeds and replaces
    the cached last-step values; neither [step] stores anything or touches
    the replay.  The [update] that follows makes exactly one
    [replay.store] call, built from the second step's observations, actions
    and log-probabilities, and the replay that [store] returns for that
    transition becomes the agent's replay; the first step's data reaches
    neither the call nor the replay. *)
Theorem second_step_overwrites_the_cache :
  forall (w : World) (first second : ndarray),
    let w1 := snd (step first w) in
    let d := actor (model (self w1)) second in
    let actions := sampled_actions d (torch_rng w1) in
    let log_probs := sum_last_axis (raw_log_probs d (torch_rng w1)) in
    let w2 := snd (step second w1) in
    fst (step second w1) = Ok actions
    /\ filter is_store (new_calls w w2) = []
    /\ replay (self w2) = replay (self w)
    /\ last_observations (self w2) = Some second
    /\ last_actions (self w2) = Some actions
    /\ last_log_probs (self w2) = Some log_probs
    /\ forall next_observations rewards resets terminations : ndarray,
         let tr :=
           transition second actions next_observations rewards resets
             terminations log_probs in
         let w3 :=
           snd (update next_observations rewards resets terminations w2) in
         (exists rest,
            new_calls w2 w3 = EReplayStore tr :: rest
            /\ filter is_store rest = [])
         /\ replay_after_store (self w2) tr second rewards (self w3).
Proof.
  intros w first second w1 d actions log_probs w2.
  assert (E : step second w1 = (Ok actions, w2)).
  { subst w2 d actions log_probs. rewrite (step_run w1 second). reflexivity. }
  assert (L : last_observations (self w2) = Some second
              /\ last_actions (self w2) = Some actions
              /\ last_log_probs (self w2) = Some log_probs
              /\ replay (self w2) = replay (self w)).
  { subst w2 d actions log_probs. rewrite (step_run w1 second).
    subst w1. rewrite step_run. cbn. auto. }
  destruct L as (L1 & L2 & L3 & L4).
  assert (F : filter is_store (new_calls w w2) = []).
  { subst w2 d actions log_probs. rewrite (step_run w1 second).
    subst w1. rewrite step_run. cbn [snd calls self model torch_rng].
    erewrite new_calls_app by (rewrite <- app_assoc; reflexivity).
    unfold sampling_calls.
    destruct (sample_with_log_prob (actor (model (self w)) first));
      match goal with
      | |- context [sample_with_log_prob ?d0] =>
          destruct (sample_with_log_prob d0)
      end; reflexivity. }
  rewrite E. cbn [fst].
  do 6 (split; [assumption || reflexivity|]).
  intros next_observations rewards resets terminations. split.
  - apply update_stores_once; assumption.
  - apply update_replay; assumption.
Qed.

Lemma numel_app (l1 l2 : list nat) :
  numel (l1 ++ l2) = (numel l1 * numel l2)%nat.
Proof.
  induction l1 as [|x l1 IH].
  - cbn [app]. change (numel []) with 1%nat. apply eq_sym, Nat.mul_1_l.
  - cbn [app]. change (numel (x :: l1 ++ l2)) with (x * numel (l1 ++ l2))%nat.
    change (numel (x :: l1)) with (x * numel l1)%nat.
    rewrite IH. apply Nat.mul_assoc.
Qed.

Lemma numel_rev (l : list nat) : numel (rev l) = numel l.
Proof.
  induction l as [|x l IH]; [reflexivity|].
  cbn [rev]. rewrite numel_app, IH.
  change (numel [x]) with (x * 1)%nat.
  change (numel (x :: l)) with (x * numel l)%nat.
  rewrite Nat.mul_1_r. apply Nat.mul_comm.
Qed.

Lemma chunks_length (n k : nat) :
  forall l : list Q, length (chunks n k l) = n.
Proof.
  induction n as [|n IH]; intros l; cbn; [reflexivity|].
  rewrite IH. reflexivity.
Qed.

Lemma chunks_nth (n k : nat) :
  forall (l : list Q) (i : nat),
    (i < n)%nat -> nth i (chunks n k l) [] = firstn k (skipn (i * k) l).
Proof.
  induction n as [|n IH]; intros l i Hi; [lia|].
  destruct i as [|i]; cbn [chunks nth].
  - reflexivity.
  - rewrite IH by lia. rewrite skipn_skipn.
    replace (i * k + k)%nat with (S i * k)%nat by lia. reflexivity.
Qed.

Lemma sum_last_axis_entries (t : ndarray) (outer : list nat) (k : nat) :
  shape t = outer ++ [k] ->
  shape (sum_last_axis t) = outer
  /\ length (data (sum_last_axis t)) = numel outer
  /\ forall i : nat,
       (i < numel outer)%nat ->
       nth i (data (sum_last_axis t)) 0%Q
       = Qsum (firstn k (skipn (i * k) (data t))).
Proof.
  intros E. unfold sum_last_axis. rewrite E, rev_app_distr. cbn [rev app].
  cbn [shape data]. rewrite rev_involutive, numel_rev.
  split; [reflexivity|]. split.
  - rewrite length_map, chunks_length. reflexivity.
  - intros i Hi.
    change 0%Q with (Qsum []). rewrite map_nth, chunks_nth by exact Hi.
    reflexivity.
Qed.

(** C5. The log-probability [step] caches is the distribution's
    log-probability output for the sampled action with its last axis summed
    away, whichever sampling operation produced it: for an output of shape
    [outer ++ [k]] the cached tensor has shape [outer] and its i-th entry is
    the sum of the k entries of the output's i-th row (a zero-dimensional
    output is kept as it is).  That summed tensor is what the following
    [update] passes as log_probs in its single [replay.store] call, and the
    replay [store] returns becomes the agent's replay. *)
Theorem log_probs_are_summed_over_the_last_axis :
  forall (w : World) (observations : ndarray),
    let d := actor (model (self w)) observations in
    let raw := raw_log_probs d (torch_rng w) in
    let actions := sampled_actions d (torch_rng w) in
    let w1 := snd (step observations w) in
    exists summed,
      last_log_probs (self w1) = Some summed
      /\ (shape raw = [] -> summed = raw)
      /\ (forall (outer : list nat) (k : nat),
            shape raw = outer ++ [k] ->
            shape summed = outer
            /\ length (data summed) = numel outer
            /\ forall i : nat,
                 (i < numel outer)%nat ->
                 nth i (data summed) 0%Q
                 = Qsum (firstn k (skipn (i * k) (data raw))))
      /\ forall next_observations rewards resets terminations : ndarray,
           let tr :=
             transition observations actions next_observations rewards
               resets terminations summed in
           let w2 :=
             snd (update next_observations rewards resets terminations w1) in
           lookup "log_probs" tr = Some summed
           /\ (exists rest,
                 new_calls w1 w2 = EReplayStore tr :: rest
                 /\ filter is_store rest = [])
           /\ replay_after_store (self w1) tr observations rewards (self w2).
Proof.
  intros w observations d raw actions w1.
  exists (sum_last_axis raw).
  assert (L : last_observations (self w1) = Some observations
              /\ last_actions (self w1) = Some actions
              /\ last_log_probs (self w1) = Some (sum_last_axis raw)).
  { subst w1 d actions raw. rewrite step_run. cbn. auto. }
  destruct L as (L1 & L2 & L3).
  split; [exact L3|]. split; [|split].
  - intros E. unfold sum_last_axis. rewrite E. reflexivity.
  - intros outer k E. apply sum_last_axis_entries. exact E.
  - intros next_observations rewards resets terminations tr w2.
    subst tr w2. split; [reflexivity|]. split.
    + apply update_stores_once; assumption.
    + apply update_replay; assumption.
Qed.




End Properties.

(** ** Summing the last axis of a matrix *)

Lemma chunks_concat (k : nat) (rows : list (list Q)) :
  Forall (fun row => length row = k) rows ->
  chunks (length rows) k (concat rows) = rows.
Proof.
  induction 1 as [|row rows Hrow _ IH]; [reflexivity|].
  cbn [length concat chunks].
  rewrite firstn_app, skipn_app, Hrow, Nat.sub_diag.
  rewrite <- Hrow at 1 3. rewrite firstn_all, skipn_all.
  cbn [firstn skipn app]. rewrite app_nil_r, IH. reflexivity.
Qed.

(** For a tensor of [n] rows of [k] entries, [sum_last_axis] is the vector
    of the row sums. *)
Lemma sum_last_axis_matrix (k : nat) (rows : list (list Q)) :
  Forall (fun row => length row = k) rows ->
  sum_last_axis {| shape := [length rows; k]; data := concat rows |}
  = {| shape := [length rows]; data := map Qsum rows |}.
Proof.
  intros Hrows. unfold sum_last_axis. cbn [shape rev app data numel fold_right].
  rewrite Nat.mul_1_r, chunks_concat by exact Hrows. reflexivity.
Qed.

Example sum_last_axis_two_by_three :
  sum_last_axis
    {| shape := [2; 3]%nat; data := [1; 2; 3; 10; 20; 30]%Q |}
  = {| shape := [2%nat]; data := [1 + (2 + (3 + 0)); 10 + (20 + (30 + 0))]%Q |}.
Proof. reflexivity. Qed.

(** ** The reverse loop of [compute_returns] *)

Section ComputeReturns.
Variables gamma lambda : Q.

Lemma recurrence_snoc (pre : list (Segment.Transition * Q * Q))
    (tr : Segment.Transition) (value next_value reset_end trace_end : Q) :
  let trace :=
    (Segment.delta gamma tr value next_value
     + gamma * lambda * (1 - reset_end) * trace_end)%Q in
  Segment.recurrence gamma lambda (pre ++ [(tr, value, next_value)])
    reset_end trace_end =
  Segment.recurrence gamma lambda pre (Segment.b2q (Segment.reset tr)) trace
  ++ [(trace, (trace + value)%Q)].
Proof.
  intros trace.
  induction pre as [|[[tr0 v0] nv0] pre IH]; [reflexivity|].
  cbn [app Segment.recurrence]. rewrite IH.
  destruct pre as [|[[tr1 v1] nv1] pre]; [reflexivity|].
  cbn [app Segment.recurrence]. reflexivity.
Qed.

Lemma backward_recurrence (rows : list (Segment.Transition * Q * Q)) :
  forall (reset_end trace_end : Q) (acc : list (Q * Q)),
    Segment.backward gamma lambda (rev rows) reset_end trace_end acc =
    Segment.recurrence gamma lambda rows reset_end trace_end ++ acc.
Proof.
  induction rows as [|[[tr value] next_value] pre IH] using rev_ind;
    intros reset_end trace_end acc; [reflexivity|].
  rewrite rev_app_distr. cbn [rev app Segment.backward].
  rewrite IH, recurrence_snoc, <- app_assoc. reflexivity.
Qed.

Lemma recurrence_length (rows : list (Segment.Transition * Q * Q))
    (reset_end trace_end : Q) :
  length (Segment.recurrence gamma lambda rows reset_end trace_end)
  = length rows.
Proof.
  induction rows as [|[[tr v] nv] rows IH]; [reflexivity|].
  cbn [Segment.recurrence length]. rewrite IH. reflexivity.
Qed.

Lemma recurrence_nth (rows : list (Segment.Transition * Q * Q)) :
  forall (t : nat) (tr : Segment.Transition) (value next_value : Q),
    nth_error rows t = Some (tr, value, next_value) ->
    let out := Segment.recurrence gamma lambda rows 0 0 in
    let trace :=
      (Segment.delta gamma tr value next_value
       + gamma * lambda
         * (1 - match nth_error rows (S t) with
                | Some (tr', _, _) => Segment.b2q (Segment.reset tr')
                | None => 0
                end)
         * nth (S t) (map fst out) 0)%Q in
    nth_error out t = Some (trace, (trace + value)%Q).
Proof.
  induction rows as [|[[tr0 v0] nv0] rows IH];
    intros t tr value next_value E; [destruct t; discriminate|].
  destruct t as [|t].
  - cbn in E. injection E as -> -> ->.
    cbn [Segment.recurrence nth_error map nth].
    destruct rows as [|[[tr1 v1] nv1] rows]; reflexivity.
  - cbn [nth_error] in E. cbn zeta in IH.
    cbn [Segment.recurrence nth_error map nth].
    apply (IH t tr value next_value E).
Qed.

End ComputeReturns.

Lemma nth_error_combine {A B} (l : list A) (l' : list B) :
  forall (i : nat) (a : A) (b : B),
    nth_error l i = Some a -> nth_error l' i = Some b ->
    nth_error (combine l l') i = Some (a, b).
Proof.
  revert l'. induction l as [|x l IH]; intros l' i a b Ea Eb;
    [destruct i; discriminate|].
  destruct l' as [|y l']; [destruct i; discriminate|].
  destruct i as [|i]; cbn in *.
  - congruence.
  - auto.
Qed.

Lemma nth_error_combine_none {A B} (l : list A) (l' : list B) (i : nat) :
  nth_error l i = None -> nth_error (combine l l') i = None.
Proof.
  intros E. apply nth_error_None. rewrite length_combine.
  apply nth_error_None in E. lia.
Qed.

(** C2. For a segment of N stored transitions and N values and
    next-values, [compute_returns] leaves N advantages and N returns such
    that for every timestep t, with δ_t = reward_t + γ·(1−termination_t)·
    next_value_t − value_t: advantages[t] = δ_t + γ·λ·(1−reset_{t+1})·
    advantages[t+1], where advantages[N] = 0, and returns[t] =
    advantages[t] + value_t.  A termination at t removes the bootstrap term
    from δ_t; a reset at t+1 cuts the trace, so that advantages[t] = δ_t. *)
Theorem compute_returns_recurrence :
  forall (s : Segment.t) (values next_values : list Q),
    length values = length (Segment.storage s) ->
    length next_values = length (Segment.storage s) ->
    let s' := Segment.compute_returns values next_values s in
    let gamma := discount_factor (Segment.args s) in
    let lambda := trace_decay (Segment.args s) in
    let N := length (Segment.storage s) in
    length (Segment.advantages s') = N
    /\ length (Segment.returns s') = N
    /\ Segment.advantage_at s' N = 0%Q
    /\ forall (t : nat) (tr : Segment.Transition) (value next_value : Q),
         nth_error (Segment.storage s) t = Some tr ->
         nth_error values t = Some value ->
         nth_error next_values t = Some next_value ->
         let d := Segment.delta gamma tr value next_value in
         Segment.advantage_at s' t
         = (d + gamma * lambda * (1 - Segment.reset_at s (S t))
                * Segment.advantage_at s' (S t))%Q
         /\ Segment.return_at s' t = (Segment.advantage_at s' t + value)%Q
         /\ (Segment.termination tr = true ->
             (d == Segment.reward tr - value)%Q)
         /\ (Segment.reset_at s (S t) = 1%Q ->
             (Segment.advantage_at s' t == d)%Q).
Proof.
  intros s values next_values Lv Ln s' gamma lambda N.
  assert (Lrows : length (combine (combine (Segment.storage s) values)
                            next_values) = N).
  { rewrite !length_combine. subst N. lia. }
  assert (Ladv : length (Segment.advantages s') = N).
  { subst s'. unfold Segment.compute_returns. cbn [Segment.advantages].
    rewrite backward_recurrence, app_nil_r, length_map, recurrence_length.
    exact Lrows. }
  assert (Lret : length (Segment.returns s') = N).
  { subst s'. unfold Segment.compute_returns. cbn [Segment.returns].
    rewrite backward_recurrence, app_nil_r, length_map, recurrence_length.
    exact Lrows. }
  split; [exact Ladv|]. split; [exact Lret|]. split.
  { unfold Segment.advantage_at. apply nth_overflow. lia. }
  intros t tr value next_value Et Ev En d.
  assert (Erow : nth_error (combine (combine (Segment.storage s) values)
                              next_values) t = Some (tr, value, next_value)).
  { auto using nth_error_combine. }
  pose proof (recurrence_nth gamma lambda _ t tr value next_value Erow) as R.
  cbv zeta in R.
  assert (Enext :
    match nth_error (combine (combine (Segment.storage s) values)
                       next_values) (S t) with
    | Some (tr', _, _) => Segment.b2q (Segment.reset tr')
    | None => 0%Q
    end = Segment.reset_at s (S t)).
  { unfold Segment.reset_at.
    destruct (nth_error (Segment.storage s) (S t)) as [tr'|] eqn:E'.
    - assert (exists v', nth_error values (S t) = Some v') as [v' Ev'].
      { destruct (nth_error values (S t)) eqn:E''; eauto.
        apply nth_error_None in E''.
        assert (S t < length (Segment.storage s))%nat
          by (apply nth_error_Some; congruence). lia. }
      assert (exists nv', nth_error next_values (S t) = Some nv')
        as [nv' En'].
      { destruct (nth_error next_values (S t)) eqn:E''; eauto.
        apply nth_error_None in E''.
        assert (S t < length (Segment.storage s))%nat
          by (apply nth_error_Some; congruence). lia. }
      rewrite (nth_error_combine _ _ _ _ _
                 (nth_error_combine _ _ _ _ _ E' Ev') En').
      reflexivity.
    - rewrite nth_error_combine_none; [reflexivity|].
      apply nth_error_combine_none. exact E'. }
  rewrite Enext in R.
  assert (Eadv : forall i, Segment.advantage_at s' i =
    nth i (map fst (Segment.recurrence gamma lambda
                      (combine (combine (Segment.storage s) values)
                         next_values) 0 0)) 0%Q).
  { intros i. subst s'. unfold Segment.advantage_at, Segment.compute_returns.
    cbn [Segment.advantages].
    rewrite backward_recurrence, app_nil_r. reflexivity. }
  assert (Ea : Segment.advantage_at s' t
               = (d + gamma * lambda * (1 - Segment.reset_at s (S t))
                      * Segment.advantage_at s' (S t))%Q).
  { rewrite !Eadv.
    erewrite (nth_error_nth _ _ _ (map_nth_error fst _ _ R)).
    reflexivity. }
  assert (Er : Segment.return_at s' t
               = (Segment.advantage_at s' t + value)%Q).
  { rewrite Eadv. subst s'.
    unfold Segment.return_at, Segment.compute_returns.
    cbn [Segment.returns]. rewrite backward_recurrence, app_nil_r.
    erewrite (nth_error_nth _ _ _ (map_nth_error snd _ _ R)).
    erewrite (nth_error_nth _ _ _ (map_nth_error fst _ _ R)).
    reflexivity. }
  split; [exact Ea|]. split; [exact Er|]. split.
  - intros T. subst d. unfold Segment.delta. rewrite T. cbn. ring.
  - intros Rs. rewrite Ea, Rs. ring.
Qed.

(** ** The theorems at concrete inputs *)

Import Standin.

(** C1, on the stand-ins: the agent with a segment of one transition runs
    the whole pass at its first [update]. *)
Lemma update_runs_learning_pass_iff_ready_witness :
  let w := Scenario.stepped Scenario.short_segment in
  let w' :=
    snd (update Scenario.batched (Scenario.scalar 1) (Scenario.scalar 0)
           (Scenario.scalar 0) w) in
  fst (update Scenario.batched (Scenario.scalar 1) (Scenario.scalar 0)
         (Scenario.scalar 0) w) = Ok tt
  /\ map is_learning_call (new_calls w w') =
       [false; false; false;
        true; true; true; true; true; true; true; true; true; true]
  /\ existsb is_learning_call (new_calls w w') = true.
Proof.
  intros w w'.
  pose proof
    (update_runs_learning_pass_iff_ready w Scenario.batched
       (Scenario.scalar 1) (Scenario.scalar 0) (Scenario.scalar 0)
       Scenario.flat Scenario.flat
       {| shape := [1%nat]; data := [- (6 # 8)] |}
       _ {| shape := [1%nat; 1%nat]; data := [1] |}
       {| shape := [1%nat; 1%nat; 1%nat]; data := [2] |}
       eq_refl eq_refl eq_refl eq_refl
       (fun _ => conj eq_refl (conj eq_refl eq_refl))) as (E & C & L).
  fold w' in C, L. split; [exact E|]. split; [|exact L].
  rewrite C. reflexivity.
Defined.

(** C6, on the stand-ins: the default model has an observation normalizer
    and no return normalizer; with a segment of three transitions the first
    [update] records the observations and runs no learning pass. *)
Lemma normalizers_are_optional_witness :
  let w := Scenario.stepped Scenario.long_segment in
  let w' :=
    snd (update Scenario.batched (Scenario.scalar 1) (Scenario.scalar 0)
           (Scenario.scalar 0) w) in
  fst (update Scenario.batched (Scenario.scalar 1) (Scenario.scalar 0)
         (Scenario.scalar 0) w) = Ok tt
  /\ filter is_normalizer_call (new_calls w w')
     = [ERecordObservations Scenario.flat]
  /\ observation_normalizer (model (self w'))
     = Some {| recorded := [Scenario.flat]; flushed := 0 |}
  /\ return_normalizer (model (self w')) = None.
Proof.
  intros w w'.
  pose proof
    (normalizers_are_optional w Scenario.batched
       (Scenario.scalar 1) (Scenario.scalar 0) (Scenario.scalar 0)
       Scenario.flat Scenario.flat
       {| shape := [1%nat]; data := [- (6 # 8)] |}
       _ Scenario.flat Scenario.flat
       eq_refl eq_refl eq_refl eq_refl
       (fun absurd => False_ind _ (Bool.diff_false_true absurd)))
    as (E & (rest & C & F) & N1 & N2).
  fold w' in C, N1, N2.
  split; [exact E|]. split; [|split; [exact N1 | exact N2]].
  rewrite C. cbn. rewrite F. reflexivity.
Defined.

(** C4, as the specification words it, fails: on one and the same agent the
    combined operation is taken for flat observations and the separate ones
    for batched observations, so no answer fixed at construction decides
    it. *)
Lemma sampling_choice_is_not_fixed_at_construction :
  ~ resolved_at_construction (Scenario.agent Scenario.short_segment).
Proof.
  intros [combined Hc].
  pose proof (Hc (fresh (Scenario.agent Scenario.short_segment) 0%N)
                Scenario.flat eq_refl) as E1.
  pose proof (Hc (fresh (Scenario.agent Scenario.short_segment) 0%N)
                Scenario.batched eq_refl) as E2.
  vm_compute in E1, E2. congruence.
Qed.

(** C2, on a full segment of three transitions with γ = λ = 1/2: at t = 1
    the episode terminates and t = 2 follows a reset, so advantages[1] is
    the bare residual reward_1 − value_1 = −1/4 and returns[1] = 0. *)
Lemma compute_returns_recurrence_witness :
  let s' :=
    Segment.compute_returns Scenario.values Scenario.next_values
      Scenario.filled in
  length (Segment.advantages s') = 3%nat
  /\ Segment.advantage_at s' 3 = 0%Q
  /\ (Segment.advantage_at s' 1 == - (1 # 4))%Q
  /\ (Segment.return_at s' 1 == 0)%Q.
Proof.
  intros s'.
  destruct (compute_returns_recurrence Scenario.filled Scenario.values
              Scenario.next_values eq_refl eq_refl)
    as (La & _ & B & R).
  destruct (R 1%nat (Scenario.timestep 0 false true) (1 # 4)%Q 3%Q
              eq_refl eq_refl eq_refl) as (_ & Er & T & Rs).
  fold s' in La, B, Er, Rs.
  split; [exact La|]. split; [exact B|].
  assert (A1 : (Segment.advantage_at s' 1 == - (1 # 4))%Q).
  { rewrite (Rs eq_refl), (T eq_refl). reflexivity. }
  split; [exact A1|].
  rewrite Er, A1. reflexivity.
Defined.

(** X4, on the stand-ins: a batch with [observations] only. *)
Lemma _evaluate_rejects_a_malformed_batch_witness :
  exists name,
    _evaluate [("observations", Scenario.flat)]
      (fresh Cases.full_agent 0%N)
    = (Raise (TypeError name), fresh Cases.full_agent 0%N).
Proof.
  exact (_evaluate_rejects_a_malformed_batch
           [("observations", Scenario.flat)] (fresh Cases.full_agent 0%N)
           (or_intror (or_introl eq_refl))).
Defined.

(** X5, on the stand-ins: the agent was handed a full replay, so the first
    [store] is refused. *)
Lemma update_stops_when_store_is_refused_witness :
  let w := snd (step Scenario.flat (fresh Cases.full_agent 0%N)) in
  let out :=
    update Scenario.batched (Scenario.scalar 1) (Scenario.scalar 0)
      (Scenario.scalar 0) w in
  fst out = Raise ReplayError
  /\ self (snd out) = self w
  /\ length (new_calls w (snd out)) = 1%nat.
Proof.
  intros w out.
  pose proof
    (update_stops_when_store_is_refused w Scenario.batched
       (Scenario.scalar 1) (Scenario.scalar 0) (Scenario.scalar 0)
       Scenario.flat Scenario.flat
       {| shape := [1%nat]; data := [- (6 # 8)] |}
       eq_refl eq_refl eq_refl eq_refl) as E.
  fold out in E. rewrite E. repeat split.
Defined.

(** X6, on the stand-ins: the first of three transitions. *)
Lemma update_before_the_segment_is_full_trains_nothing_witness :
  let w := Scenario.stepped Scenario.long_segment in
  let out :=
    update Scenario.batched (Scenario.scalar 1) (Scenario.scalar 0)
      (Scenario.scalar 0) w in
  fst out = Ok tt
  /\ params (model (self (snd out))) = 0%nat
  /\ actor_updater (self (snd out)) = actor_updater (self w)
  /\ critic_updater (self (snd out)) = critic_updater (self w)
  /\ logger (snd out) = [].
Proof.
  intros w out.
  pose proof
    (update_before_the_segment_is_full_trains_nothing w Scenario.batched
       (Scenario.scalar 1) (Scenario.scalar 0) (Scenario.scalar 0)
       Scenario.flat Scenario.flat
       {| shape := [1%nat]; data := [- (6 # 8)] |}
       _ eq_refl eq_refl eq_refl eq_refl eq_refl) as [E _].
  fold out in E. rewrite E. repeat split.
Defined.

(** X9, on the stand-ins: batched observations give a distribution without
    the combined operation. *)
Lemma step_and_test_step_sample_alike_witness :
  let w := fresh (Scenario.agent Scenario.short_segment) 0%N in
  fst (step Scenario.batched w) = fst (test_step Scenario.batched w)
  /\ torch_rng (snd (step Scenario.batched w))
     = torch_rng (snd (test_step Scenario.batched w)).
Proof.
  exact (step_and_test_step_sample_alike
           (fresh (Scenario.agent Scenario.short_segment) 0%N)
           Scenario.batched eq_refl eq_refl).
Defined.

(** X11, on the stand-ins: a pass over the full replay of three transitions
    with two batch iterations takes one actor step and two critic steps. *)
Lemma learning_pass_trains_in_sequence_witness :
  let w := fresh Cases.full_agent 0%N in
  fst (_update w) = Ok tt
  /\ params (model (self (snd (_update w)))) = 3%nat
  /\ snd (actor_updater (self (snd (_update w)))) = 1%nat
  /\ snd (critic_updater (self (snd (_update w)))) = 2%nat.
Proof.
  intros w.
  pose proof
    (learning_pass_trains_in_sequence w
       {| shape := [3; 1]%nat; data := [1; 1; 1]%Q |}
       {| shape := [3; 1]%nat; data := [1; 1; 1]%Q |}
       (conj eq_refl (conj eq_refl eq_refl)))
    as (E & P & AU & CU & _).
  split; [exact E|]. rewrite P, AU, CU. repeat split.
Defined.

(** X12, on the stand-ins: one actor entry, then one critic entry per
    batch. *)
Lemma learning_pass_logs_diagnostics_in_order_witness :
  map fst (logger (snd (_update (fresh Cases.full_agent 0%N))))
  = ["actor/loss"; "critic/loss"; "critic/loss"].
Proof.
  pose proof
    (learning_pass_logs_diagnostics_in_order
       (fresh Cases.full_agent 0%N)
       {| shape := [3; 1]%nat; data := [1; 1; 1]%Q |}
       {| shape := [3; 1]%nat; data := [1; 1; 1]%Q |}
       (conj eq_refl (conj eq_refl eq_refl))) as L.
  cbv zeta in L. rewrite L. reflexivity.
Defined.

(** X13, on the stand-ins: one environment, two action dimensions. *)
Lemma step_caches_row_sums_of_a_matrix_witness :
  last_log_probs
    (self (snd (step Scenario.flat
                  (fresh (Scenario.agent Scenario.short_segment) 0%N))))
  = Some {| shape := [1%nat];
            data := [(- (1 # 2) + (- (1 # 4) + 0))%Q] |}.
Proof.
  exact (step_caches_row_sums_of_a_matrix
           (fresh (Scenario.agent Scenario.short_segment) 0%N)
           Scenario.flat 2 [[- (1 # 2); - (1 # 4)]%Q]
           eq_refl
           (@Forall_cons _ (fun row : list Q => length row = 2%nat)
              [- (1 # 2); - (1 # 4)]%Q [] eq_refl (Forall_nil _))).
Defined.

(** X14, on the stand-ins with the replay whose [get_full] answers with an
    empty batch. *)
Lemma learning_pass_aborts_on_a_malformed_batch_witness :
  let w := fresh Cases.full_agent 0%N in
  exists name,
    fst (@_update Standin.types Cases.forgetful w) = Raise (TypeError name)
    /\ new_calls w (snd (@_update Standin.types Cases.forgetful w))
       = [EReplayGetFull ["observations"; "next_observations"]]
    /\ logger (snd (@_update Standin.types Cases.forgetful w)) = [].
Proof.
  intros w.
  destruct (@learning_pass_aborts_on_a_malformed_batch Standin.types
              Cases.forgetful w (or_introl eq_refl)) as [name E].
  exists name. rewrite E. repeat split.
Defined.

(** C3, on the stand-ins: with a segment of one transition the stored pair
    is in the replay after the [update], and the learning pass has read it
    out. *)
Lemma step_caches_and_update_stores_the_pair_witness :
  let w := fresh (Scenario.agent Scenario.short_segment) 0%N in
  let w1 := snd (step Scenario.flat w) in
  let w2 :=
    snd (update Scenario.batched (Scenario.scalar 1) (Scenario.scalar 0)
           (Scenario.scalar 0) w1) in
  map Segment.observation (Segment.storage (replay (self w2)))
  = [Scenario.flat]
  /\ map Segment.next_observation (Segment.storage (replay (self w2)))
     = [Scenario.batched]
  /\ map Segment.reward (Segment.storage (replay (self w2))) = [1%Q].
Proof.
  intros w w1 w2.
  destruct (step_caches_and_update_stores_the_pair w Scenario.flat)
    as (_ & _ & _ & _ & _ & U).
  destruct (U Scenario.batched (Scenario.scalar 1) (Scenario.scalar 0)
              (Scenario.scalar 0)) as (_ & R).
  specialize (R {| shape := [1; 1]%nat; data := [1%Q] |}
                {| shape := [1; 1; 1]%nat; data := [2%Q] |}
                (conj eq_refl (conj eq_refl eq_refl))).
  fold w1 in R. fold w2 in R. rewrite R. repeat split.
Defined.

(** C10, on the stand-ins: after two steps the replay holds the second
    step's observations only. *)
Lemma second_step_overwrites_the_cache_witness :
  let w := fresh (Scenario.agent Scenario.long_segment) 0%N in
  let w2 := snd (step Scenario.batched (snd (step Scenario.flat w))) in
  let w3 :=
    snd (update Scenario.flat (Scenario.scalar 1) (Scenario.scalar 0)
           (Scenario.scalar 0) w2) in
  map Segment.observation (Segment.storage (replay (self w3)))
  = [Scenario.batched]
  /\ Segment.cursor (replay (self w3)) = 1%nat.
Proof.
  intros w w2 w3.
  destruct (second_step_overwrites_the_cache w Scenario.flat
              Scenario.batched) as (_ & _ & _ & _ & _ & _ & U).
  destruct (U Scenario.flat (Scenario.scalar 1) (Scenario.scalar 0)
              (Scenario.scalar 0)) as (_ & R).
  fold w2 in R. fold w3 in R.
  rewrite (R : replay (self w3) = _). repeat split.
Defined.

(** C5, on the stand-ins: one environment and two action dimensions give
    one cached entry, the sum of the two log-probabilities. *)
Lemma log_probs_are_summed_over_the_last_axis_witness :
  let w := fresh (Scenario.agent Scenario.short_segment) 0%N in
  exists summed,
    last_log_probs (self (snd (step Scenario.flat w))) = Some summed
    /\ shape summed = [1%nat]
    /\ nth 0 (data summed) 0%Q = (- (1 # 2) + (- (1 # 4) + 0))%Q.
Proof.
  intros w.
  destruct (log_probs_are_summed_over_the_last_axis w Scenario.flat)
    as (summed & L & _ & M & _).
  destruct (M [1%nat] 2%nat eq_refl) as (Sh & _ & Nth).
  exists summed. split; [exact L|]. split; [exact Sh|].
  exact (Nth 0%nat (le_n 1)).
Defined.

(** C8, evaluated where the code fails: for an observation whose sample
    requires grad, [test_step] raises at [.numpy()], whereas [step], which
    samples under [torch.no_grad()], returns the action; the agent object is
    unchanged all the same. *)
Lemma test_step_raises_on_a_differentiable_sample :
  let w := fresh (Scenario.agent Scenario.short_segment) 0%N in
  sample_requires_grad (actor (model (self w)) Cases.bare) = true
  /\ fst (test_step Cases.bare w) = Raise RuntimeError
  /\ fst (step Cases.bare w) = Ok Cases.bare
  /\ self (snd (test_step Cases.bare w)) = self w
  /\ new_calls w (snd (test_step Cases.bare w))
     = [EActor Cases.bare; ESample].
Proof.
  intros w. repeat split.
Qed.
